(** * Page-range engine and retention sweeper of the file-utilities server

    A shallow embedding of
    - [server/services/pdfProcessor.js] (mergePdfs, parsePageRange, splitPdf,
      reorderPdfPages),
    - the split handlers of [server/routes/pdf.js] and [api/index.js],
    - [server/config/cloudinary.js] (getResourcesByTag, deleteResource) and
      [server/services/cleanup.js] (isExpired, cleanupResourceType,
      cleanupExpiredFiles, startCleanupJob),
    with the properties the specification states about them. *)

From Stdlib Require Import String Ascii DecimalString.
From Stdlib Require Import ZArith NArith List Bool Lia.
From Stdlib Require Import Sorting.Sorted Sorting.Permutation.
From Equations Require Import Equations.
Import ListNotations.

Open Scope Z_scope.

(** ** JavaScript values used by the engine *)

Module Js.

(** A JavaScript string is a sequence of UTF-16 code units. *)
Definition code_unit := N.
Definition js_string := list code_unit.

(** String literals of this development, written as Rocq strings. *)
Definition lit (s : string) : js_string :=
  map N_of_ascii (list_ascii_of_string s).

Definition comma : code_unit := 44%N.
Definition dash : code_unit := 45%N.
Definition plus : code_unit := 43%N.
Definition semicolon : code_unit := 59%N.

(** WhiteSpace and LineTerminator code points of ECMAScript: the characters
    [String.prototype.trim] strips and [parseInt] skips. *)
Definition isWhiteSpace (c : code_unit) : bool :=
  (existsb (N.eqb c)
     [9; 10; 11; 12; 13; 32; 160; 5760; 8232; 8233; 8239; 8287; 12288; 65279]
   || ((8192 <=? c) && (c <=? 8202)))%N.

Fixpoint trimStart (s : js_string) : js_string :=
  match s with
  | c :: s' => if isWhiteSpace c then trimStart s' else s
  | [] => []
  end.

Definition trimEnd (s : js_string) : js_string := rev (trimStart (rev s)).

(** [s.trim()] *)
Definition trim (s : js_string) : js_string := trimEnd (trimStart s).

(** [s.split(sep)] for a one-character separator: never empty, and
    [split sep ""] is [[""]]. *)
Fixpoint split (sep : code_unit) (s : js_string) : list js_string :=
  match s with
  | [] => [[]]
  | c :: s' =>
      if (c =? sep)%N then [] :: split sep s'
      else match split sep s' with
           | p :: ps => (c :: p) :: ps
           | [] => [[c]]
           end
  end.

(** [s.includes(c)] for a one-character needle. *)
Definition includes (c : code_unit) (s : js_string) : bool :=
  existsb (N.eqb c) s.

(** A number produced by [parseInt]: [None] is NaN, [Some z] the integer
    z.  [parseInt] rounds integers above 2^53 to the nearest double; every
    comparison the engine makes has a page count on the other side, which is
    below 2^53, and rounding to nearest is monotone and fixes the integers up
    to 2^53, so the comparisons on the exact integer and on the double
    agree.  [undefined] compares like NaN and is modelled by [None] too. *)
Definition JsNumber := option Z.

Definition NaN : JsNumber := None.

(** [a <= b]: false as soon as one side is NaN. *)
Definition le (a b : JsNumber) : bool :=
  match a, b with
  | Some x, Some y => x <=? y
  | _, _ => false
  end.

(** [a >= b] *)
Definition ge (a b : JsNumber) : bool := le b a.

(** [a - 1] and [a + 1] (NaN is absorbing). *)
Definition pred (a : JsNumber) : JsNumber := option_map Z.pred a.
Definition succ (a : JsNumber) : JsNumber := option_map Z.succ a.

(** Value of a code unit as a digit in a radix up to 16. *)
Definition digitValue (c : code_unit) : option Z :=
  if ((48 <=? c) && (c <=? 57))%N then Some (Z.of_N c - 48)
  else if ((97 <=? c) && (c <=? 102))%N then Some (Z.of_N c - 87)
  else if ((65 <=? c) && (c <=? 70))%N then Some (Z.of_N c - 55)
  else None.

(** The longest prefix of radix-R digits, read as an integer; [acc] is the
    value read so far, [None] while no digit has been seen. *)
Fixpoint digits (R : Z) (s : js_string) (acc : option Z) : option Z :=
  match s with
  | c :: s' =>
      match digitValue c with
      | Some d =>
          if d <? R
          then digits R s' (Some (R * match acc with Some a => a | None => 0 end + d))
          else acc
      | None => acc
      end
  | [] => acc
  end.

(** [parseInt(s)] with no radix argument (ECMAScript 19.2.5): leading white
    space is skipped, a sign is read, a [0x]/[0X] prefix selects radix 16,
    the longest digit prefix is the value, and NaN is returned when that
    prefix is empty. *)
Definition parseInt (s : js_string) : JsNumber :=
  let s0 := trimStart s in
  let '(sign, s1) :=
    match s0 with
    | c :: r => if (c =? dash)%N then (-1, r)
                else if (c =? plus)%N then (1, r) else (1, s0)
    | [] => (1, s0)
    end in
  let '(R, s2) :=
    match s1 with
    | z :: x :: r =>
        if ((z =? 48) && ((x =? 120) || (x =? 88)))%N then (16, r) else (10, s1)
    | _ => (10, s1)
    end in
  option_map (Z.mul sign) (digits R s2 None).

(** A string all of whose characters are radix-R digits, and at least one. *)
Fixpoint allDigits (R : Z) (s : js_string) (acc : Z) : option Z :=
  match s with
  | [] => Some acc
  | c :: s' =>
      match digitValue c with
      | Some d => if d <? R then allDigits R s' (R * acc + d) else None
      | None => None
      end
  end.

Definition integerLiteral (R : Z) (s : js_string) : option Z :=
  match s with
  | [] => None
  | _ :: _ => allDigits R s 0
  end.

(** [0x], [0o] and [0b] literals. *)
Definition radixLiteral (t : js_string) : option Z :=
  match t with
  | z :: x :: r =>
      if (z =? 48)%N then
        if ((x =? 120) || (x =? 88))%N then integerLiteral 16 r
        else if ((x =? 111) || (x =? 79))%N then integerLiteral 8 r
        else if ((x =? 98) || (x =? 66))%N then integerLiteral 2 r
        else None
      else None
  | _ => None
  end.

(** An optional sign and decimal digits. *)
Definition signedDecimal (t : js_string) : option Z :=
  match t with
  | c :: r =>
      if (c =? dash)%N then option_map Z.opp (integerLiteral 10 r)
      else if (c =? plus)%N then integerLiteral 10 r
      else integerLiteral 10 t
  | [] => None
  end.

(** [Number(s)] (ECMAScript StringToNumber) on the strings whose value is
    an integer or NaN: white space is trimmed on both sides, the empty
    string is 0, an integer literal is its value, and every other string
    is NaN unless it could be a literal with a fraction, an exponent or
    [Infinity].  Those strings (the ones with one of the characters
    [.], [e], [E], [I] that are no integer literal) are outside the model:
    the result is [None]. *)
Definition Number (s : js_string) : option JsNumber :=
  let t := trim s in
  match t with
  | [] => Some (Some 0)
  | _ :: _ =>
      match radixLiteral t with
      | Some v => Some (Some v)
      | None =>
          match signedDecimal t with
          | Some v => Some (Some v)
          | None =>
              if existsb (fun c => existsb (N.eqb c) [46; 101; 69; 73]%N) t
              then None
              else Some NaN
          end
      end
  end.

(** A [Set] of numbers: its elements in insertion order, each once. *)
Definition JsSet := list Z.

(** [pages.add(x)] *)
Definition Set_add (x : Z) (s : JsSet) : JsSet :=
  if existsb (Z.eqb x) s then s else s ++ [x].

(** [pages.add(n - 1)] on a number: every call is guarded by a comparison
    of [n] with 1, which fails on NaN, so the argument is an integer when
    the call is reached; on NaN the set is left as it is. *)
Definition Set_add_number (x : JsNumber) (s : JsSet) : JsSet :=
  match x with
  | Some z => Set_add z s
  | None => s
  end.

Fixpoint insert_sorted (x : Z) (l : list Z) : list Z :=
  match l with
  | [] => [x]
  | y :: l' => if x <=? y then x :: l else y :: insert_sorted x l'
  end.

(** [Array.from(pages).sort((a, b) => a - b)]: the elements in ascending
    numeric order.  The engine's sorting algorithm is left to the
    implementation by the language; the comparator is a total order on
    distinct integers, so every algorithm returns this list. *)
Definition sort_ascending (l : list Z) : list Z :=
  fold_right insert_sorted [] l.

(** [parts.join(sep)] for a one-character separator. *)
Fixpoint join (sep : code_unit) (parts : list js_string) : js_string :=
  match parts with
  | [] => []
  | [p] => p
  | p :: rest => p ++ sep :: join sep rest
  end.

End Js.

Import Js.

(** ** pdfProcessor.js: parsePageRange *)

(** The loop
    [for (let i = start; i <= end && i <= totalPages; i++)
       if (i >= 1) pages.add(i - 1);]
    by well-founded recursion on the distance from [i] to [totalPages]. *)
Definition loop_measure (i : JsNumber) (totalPages : Z) : nat :=
  match i with
  | Some z => Z.to_nat (totalPages + 1 - z)
  | None => O
  end.

Equations? rangeLoop (i endv : JsNumber) (totalPages : Z) (pages : JsSet)
  : JsSet by wf (loop_measure i totalPages) lt :=
  rangeLoop i endv totalPages pages
    with Sumbool.sumbool_of_bool (le i endv && le i (Some totalPages)) => {
    | left _ =>
        rangeLoop (succ i) endv totalPages
          (if ge i (Some 1) then Set_add_number (pred i) pages else pages);
    | right _ => pages }.
Proof.
  match goal with H : _ && _ = true |- _ => apply andb_prop in H; destruct H as [_ H] end.
  destruct i as [z|]; simpl in *; try discriminate.
  match goal with H : (_ <=? _) = true |- _ => apply Z.leb_le in H end. lia.
Qed.

(** [parsePageRange(pageString, totalPages)] *)
Definition parsePart (totalPages : Z) (pages : JsSet) (part : js_string) : JsSet :=
  if includes dash part then
    let bounds := map (fun n => parseInt (trim n)) (split dash part) in
    let start := nth 0 bounds NaN in
    let endv := nth 1 bounds NaN in
    rangeLoop start endv totalPages pages
  else
    let pageNum := parseInt part in
    if ge pageNum (Some 1) && le pageNum (Some totalPages)
    then Set_add_number (pred pageNum) pages
    else pages.

Definition parsePageRange (pageString : js_string) (totalPages : Z) : list Z :=
  let parts := map trim (split comma pageString) in
  let pages := fold_left (parsePart totalPages) parts [] in
  sort_ascending pages.

(** ** The reference definition of section 4.1

    The definition follows the specification's words: the expression is
    split on commas; an atom with a dash is read as two integers and
    contributes the integers of the closed interval; any other atom is read
    as one integer; the indices kept satisfy [1 <= i <= totalPages], are
    converted to zero-based, and come out ascending, each once.  Reading an
    integer is [parseInt] on the trimmed text, as in the engine. *)

Module Reference.

(** The one-based page numbers [1, ..., totalPages]. *)
Definition page_numbers (totalPages : Z) : list Z :=
  map Z.of_nat (seq 1 (Z.to_nat totalPages)).

(** Whether the atom names the one-based page [i]. *)
Definition atom_contains (atom : js_string) (i : Z) : bool :=
  if includes dash atom then
    match map (fun n => parseInt (trim n)) (split dash atom) with
    | Some start :: Some endv :: _ => (start <=? i) && (i <=? endv)
    | _ => false
    end
  else
    match parseInt atom with
    | Some n => i =? n
    | None => false
    end.

Definition atoms (expression : js_string) : list js_string :=
  map trim (split comma expression).

Definition selected (expression : js_string) (i : Z) : bool :=
  existsb (fun atom => atom_contains atom i) (atoms expression).

Definition parse (expression : js_string) (totalPages : Z) : list Z :=
  map Z.pred (filter (selected expression) (page_numbers totalPages)).

End Reference.

(** ** What an atom contributes; malformed and out-of-bounds atoms *)

(** The one-based page numbers a range atom with bounds [start], [endv]
    names on a document of [totalPages] pages. *)
Definition in_range (start endv : JsNumber) (totalPages z : Z) : Prop :=
  exists s e, start = Some s /\ endv = Some e /\
              s <= z /\ z <= e /\ z <= totalPages /\ 1 <= z.

(** The one-based page numbers an atom adds, read off the reference
    definition. *)
Definition contributes (totalPages : Z) (part : js_string) (x : Z) : Prop :=
  exists z, Reference.atom_contains part z = true /\
            1 <= z /\ z <= totalPages /\ x = z - 1.





(** ** The atoms as the specification writes them

    An atom of a page-range expression is a single page number or
    [start-end]; a page number is a decimal numeral. *)

Module Grammar.






End Grammar.

(** ** pdfProcessor.js: documents, merge, split, reorder *)

(** What a JavaScript call completes with: a value, or a thrown error. *)
Inductive JsError : Type :=
| MalformedDocument   (* PDFDocument.load rejects the bytes *)
| NoSuchPage          (* copyPages reads a page that the source does not have *)
| InvalidPageOrder    (* Error('Invalid page order specified') *)
| UploadFailed        (* the upload to the object store rejects *)
| UpstreamError (message : string).
                      (* a call to the object store rejects with this message *)

Inductive Completion (A : Type) : Type :=
| Normal (a : A)
| Throw (e : JsError).

Arguments Normal {A} a.
Arguments Throw {A} e.

Definition bind {A B : Type} (c : Completion A) (k : A -> Completion B) : Completion B :=
  match c with
  | Normal a => k a
  | Throw e => Throw e
  end.

Notation "x <- c ;; k" := (bind c (fun x => k))
  (at level 61, c at next level, right associativity).

(** [await Promise.all(xs.map(f))] and loops that await in turn: the first
    rejection is the one thrown. *)
Fixpoint traverse {A B : Type} (f : A -> Completion B) (l : list A) : Completion (list B) :=
  match l with
  | [] => Normal []
  | a :: l' => b <- f a ;; bs <- traverse f l' ;; Normal (b :: bs)
  end.

Section PdfEngine.

(** The pdf-lib capability: pages are opaque, a document handle holds its
    pages in order, [load] parses bytes (and fails on bytes that are not a
    document), [save] serializes a handle. *)
Variable Page : Type.
Variable Buffer : Type.

Record PDFDocument : Type := mkDocument { docPages : list Page }.

Variable load : Buffer -> option PDFDocument.
Variable save : PDFDocument -> Buffer.

(** [await PDFDocument.load(buffer)] *)
Definition PDFDocument_load (buffer : Buffer) : Completion PDFDocument :=
  match load buffer with
  | Some pdf => Normal pdf
  | None => Throw MalformedDocument
  end.

(** [await PDFDocument.create()] *)
Definition PDFDocument_create : PDFDocument := mkDocument [].

Definition getPageCount (pdf : PDFDocument) : Z := Z.of_nat (length (docPages pdf)).

(** [pdf.getPageIndices()]: [0, ..., pageCount - 1]. *)
Definition getPageIndices (pdf : PDFDocument) : list JsNumber :=
  map (fun n => Some (Z.of_nat n)) (seq 0 (length (docPages pdf))).

(** [srcPages[index]]: undefined unless the index is an integer that names
    a page. *)
Definition pageAt (src : PDFDocument) (index : JsNumber) : option Page :=
  match index with
  | Some z => if z <? 0 then None else nth_error (docPages src) (Z.to_nat z)
  | None => None
  end.

(** [await target.copyPages(src, indices)]: copies of the pages at the
    indices, in the order of the indices; reading an index that names no
    page throws. *)
Definition copyPages (src : PDFDocument) (indices : list JsNumber) : Completion (list Page) :=
  traverse (fun index => match pageAt src index with
                         | Some page => Normal page
                         | None => Throw NoSuchPage
                         end) indices.

(** [pdf.addPage(page)] appends. *)
Definition addPage (pdf : PDFDocument) (page : Page) : PDFDocument :=
  mkDocument (docPages pdf ++ [page]).

(** [pages.forEach(page => pdf.addPage(page))] *)
Definition addPages (pdf : PDFDocument) (pages : list Page) : PDFDocument :=
  fold_left addPage pages pdf.

(** The loop of [mergePdfs] over the buffers, on the accumulating handle. *)
Fixpoint mergeLoop (pdfBuffers : list Buffer) (mergedPdf : PDFDocument)
  : Completion PDFDocument :=
  match pdfBuffers with
  | [] => Normal mergedPdf
  | buffer :: rest =>
      pdf <- PDFDocument_load buffer ;;
      pages <- copyPages pdf (getPageIndices pdf) ;;
      mergeLoop rest (addPages mergedPdf pages)
  end.

(** [mergePdfs(pdfBuffers)]: the handle that is saved, and the bytes. *)
Definition mergedDocument (pdfBuffers : list Buffer) : Completion PDFDocument :=
  mergeLoop pdfBuffers PDFDocument_create.

Definition mergePdfs (pdfBuffers : list Buffer) : Completion Buffer :=
  mergedPdf <- mergedDocument pdfBuffers ;;
  Normal (save mergedPdf).

(** One element of the array [splitPdf] returns. *)
Record SplitResult : Type := mkSplitResult {
  buffer : Buffer;
  pages : js_string;
  pageCount : Z
}.

(** The loop of [splitPdf] over the groups. *)
Fixpoint splitLoop (originalPdf : PDFDocument) (totalPages : Z)
  (groups : list js_string) (results : list SplitResult)
  : Completion (list SplitResult) :=
  match groups with
  | [] => Normal results
  | group :: rest =>
      let pageIndices := parsePageRange group totalPages in
      if (length pageIndices =? 0)%nat then
        splitLoop originalPdf totalPages rest results
      else
        let newPdf := PDFDocument_create in
        pages <- copyPages originalPdf (map Some pageIndices) ;;
        let newPdf := addPages newPdf pages in
        let buffer := save newPdf in
        splitLoop originalPdf totalPages rest
          (results ++ [mkSplitResult buffer group (Z.of_nat (length pageIndices))])
  end.

(** [pageRanges.split(';').map(s => s.trim()).filter(s => s)] *)
Definition splitGroups (pageRanges : js_string) : list js_string :=
  filter (fun s => negb (length s =? 0)%nat) (map trim (split semicolon pageRanges)).

(** [splitPdf(pdfBuffer, pageRanges)] *)
Definition splitPdf (pdfBuffer : Buffer) (pageRanges : js_string)
  : Completion (list SplitResult) :=
  originalPdf <- PDFDocument_load pdfBuffer ;;
  let totalPages := getPageCount originalPdf in
  let groups := splitGroups pageRanges in
  splitLoop originalPdf totalPages groups [].

(** [newOrder.filter(n => n >= 1 && n <= totalPages).map(n => n - 1)] *)
Definition validOrder (totalPages : Z) (newOrder : list Z) : list Z :=
  map (fun n => n - 1)
      (filter (fun n => (1 <=? n) && (n <=? totalPages)) newOrder).

(** [reorderPdfPages(pdfBuffer, newOrder)]: the handle that is saved, and
    the bytes. *)
Definition reorderedDocument (pdfBuffer : Buffer) (newOrder : list Z)
  : Completion PDFDocument :=
  originalPdf <- PDFDocument_load pdfBuffer ;;
  let totalPages := getPageCount originalPdf in
  let validOrder := validOrder totalPages newOrder in
  if (length validOrder =? 0)%nat then Throw InvalidPageOrder
  else
    let reorderedPdf := PDFDocument_create in
    pages <- copyPages originalPdf (map Some validOrder) ;;
    Normal (addPages reorderedPdf pages).

Definition reorderPdfPages (pdfBuffer : Buffer) (newOrder : list Z) : Completion Buffer :=
  reorderedPdf <- reorderedDocument pdfBuffer newOrder ;;
  Normal (save reorderedPdf).

(** [getPdfInfo(pdfBuffer)], its page count. *)
Definition getPdfInfo (pdfBuffer : Buffer) : Completion Z :=
  pdf <- PDFDocument_load pdfBuffer ;;
  Normal (getPageCount pdf).

(** The pages [ps] are the pages of [src] at the zero-based [indices], in
    the order of the indices. *)
Definition pages_at (src : PDFDocument) (indices : list Z) (ps : list Page) : Prop :=
  Forall2 (fun i p => 0 <= i /\ nth_error (docPages src) (Z.to_nat i) = Some p) indices ps.

(** The page of [src] with the one-based number [n]: none unless [n] lies
    in [1, page count]. *)
Definition pageNumbered (src : PDFDocument) (n : Z) : option Page :=
  if (1 <=? n) && (n <=? getPageCount src)
  then nth_error (docPages src) (Z.to_nat (n - 1))
  else None.

(** The pages a sequence of one-based page numbers names, in the order of
    the sequence and with its repetitions; a number that names no page adds
    nothing. *)
Definition pagesNumbered (src : PDFDocument) (numbers : list Z) : list Page :=
  flat_map (fun n => match pageNumbered src n with
                     | Some page => [page]
                     | None => []
                     end) numbers.

(** [result] is the output for the group: a document of exactly the pages
    the group selects, in ascending index order, the group's text, and the
    number of those pages. *)
Definition split_result_of (original : PDFDocument) (group : js_string)
  (result : SplitResult) : Prop :=
  let pageIndices := parsePageRange group (getPageCount original) in
  exists ps, pages_at original pageIndices ps /\
             result = mkSplitResult (save (mkDocument ps)) group
                                    (Z.of_nat (length pageIndices)).

(** The groups whose page-index set is not empty. *)
Definition selects_pages (original : PDFDocument) (group : js_string) : bool :=
  negb (length (parsePageRange group (getPageCount original)) =? 0)%nat.

(** *** routes/pdf.js: POST /api/pdf/split *)

(** The object store: an upload resolves with the stored object (its
    secure URL and public id) or rejects.  The upload options (resource
    type, format, public id) go to the provider unread. *)
Variable Upload : Type.
Variable uploadToCloudinary : Buffer -> option Upload.

(** [buffer.length] *)
Variable byteLength : Buffer -> Z.

Definition upload (buffer : Buffer) : Completion Upload :=
  match uploadToCloudinary buffer with
  | Some uploadResult => Normal uploadResult
  | None => Throw UploadFailed
  end.

(** The request as the handlers read it: [req.file] and [req.body.pages]
    (absent, or a string). *)
Record Request : Type := mkRequest {
  req_file : option Buffer;
  req_pages : option js_string
}.

(** One entry of [splitFiles] in the response. *)
Record SplitFile : Type := mkSplitFile {
  file_pages : js_string;
  file_pageCount : Z;
  file_upload : Upload;
  file_size : Z
}.

Inductive Response : Type :=
| Status400 (error : string)
| Status500 (error : string)
| SplitSuccess (originalPageCount : Z) (splitFiles : list SplitFile).

(** The handler once the request is validated: the split itself, the
    check of its result, the uploads and the answer. *)
Definition splitValidated (fileBuffer : Buffer) (bodyPages : js_string)
  : Completion Response :=
  originalInfo <- getPdfInfo fileBuffer ;;
  splitResults <- splitPdf fileBuffer bodyPages ;;
  if (length splitResults =? 0)%nat
  then Normal (Status400 "No valid pages specified")
  else
    uploadedFiles <-
      traverse (fun result =>
                  uploadResult <- upload (buffer result) ;;
                  Normal (mkSplitFile (pages result) (pageCount result)
                                      uploadResult (byteLength (buffer result))))
               splitResults ;;
    Normal (SplitSuccess originalInfo uploadedFiles).

(** The body of the [try] block of the server's handler. *)
Definition splitHandlerBody (req : Request) : Completion Response :=
  match req_file req with
  | None => Normal (Status400 "No file uploaded")
  | Some fileBuffer =>
      match req_pages req with
      | None | Some [] => Normal (Status400 "Page ranges required")
      | Some bodyPages => splitValidated fileBuffer bodyPages
      end
  end.

(** The handler with its [catch]. *)
Definition splitHandler (req : Request) : Response :=
  match splitHandlerBody req with
  | Normal response => response
  | Throw _ => Status500 "Failed to split PDF"
  end.

(** *** api/index.js: POST /api/pdf/split, the serverless handler *)

(** The loop [for (let i = start; i <= end; i++) pageNums.push(i - 1)]. *)
Definition push_measure (i endv : JsNumber) : nat :=
  match i, endv with
  | Some z, Some e => Z.to_nat (e + 1 - z)
  | _, _ => O
  end.

Equations? pushLoop (i endv : JsNumber) (pageNums : list JsNumber)
  : list JsNumber by wf (push_measure i endv) lt :=
  pushLoop i endv pageNums with Sumbool.sumbool_of_bool (le i endv) => {
    | left _ => pushLoop (succ i) endv (pageNums ++ [pred i]);
    | right _ => pageNums }.
Proof.
  destruct i as [z |]; destruct endv as [ez |]; simpl in *; try discriminate.
  match goal with H : (_ <=? _) = true |- _ => apply Z.leb_le in H end. lia.
Qed.

(** The page numbers the serverless handler computes for one segment;
    [None] when a bound of the range is a numeric string outside the
    integers (see [Number]). *)
Definition pageNumsOf (range : js_string) : option (list JsNumber) :=
  if includes dash range then
    let bounds := map Number (split dash range) in
    match nth 0 bounds (Some NaN), nth 1 bounds (Some NaN) with
    | Some start, Some endv => Some (pushLoop start endv [])
    | _, _ => None
    end
  else
    Some (map (fun p => pred (parseInt p)) (split comma range)).

(** One turn of the handler's loop: the file pushed for a segment. *)
Definition serverlessFile (sourcePdf : PDFDocument) (range : js_string)
  (pageNums : list JsNumber) : Completion SplitFile :=
  let newPdf := PDFDocument_create in
  copiedPages <- copyPages sourcePdf pageNums ;;
  let newPdf := addPages newPdf copiedPages in
  let buffer := save newPdf in
  uploadResult <- upload buffer ;;
  Normal (mkSplitFile range (Z.of_nat (length pageNums)) uploadResult (byteLength buffer)).

Fixpoint serverlessLoop (sourcePdf : PDFDocument) (pageRanges : list js_string)
  (results : list SplitFile) : option (Completion (list SplitFile)) :=
  match pageRanges with
  | [] => Some (Normal results)
  | range :: rest =>
      match pageNumsOf range with
      | None => None
      | Some pageNums =>
          match serverlessFile sourcePdf range pageNums with
          | Normal file => serverlessLoop sourcePdf rest (results ++ [file])
          | Throw e => Some (Throw e)
          end
      end
  end.

(** The handler with its [catch]; reading [req.file.buffer] without a file
    and [pages.split] without the field throw a TypeError, caught like
    every other error.  [None] when a range bound is outside the model. *)
Definition serverlessSplitHandler (req : Request) : option Response :=
  match req_file req, req_pages req with
  | Some fileBuffer, Some bodyPages =>
      match PDFDocument_load fileBuffer with
      | Throw _ => Some (Status500 "Failed to split PDF")
      | Normal sourcePdf =>
          let pageRanges := map trim (split semicolon bodyPages) in
          match serverlessLoop sourcePdf pageRanges [] with
          | None => None
          | Some (Normal results) => Some (SplitSuccess (getPageCount sourcePdf) results)
          | Some (Throw _) => Some (Status500 "Failed to split PDF")
          end
      end
  | _, _ => Some (Status500 "Failed to split PDF")
  end.

End PdfEngine.

Arguments mkDocument {Page} docPages.
Arguments docPages {Page} p.
Arguments buffer {Buffer} s.
Arguments pages {Buffer} s.
Arguments pageCount {Buffer} s.
Arguments mkSplitResult {Buffer} buffer pages pageCount.
Arguments PDFDocument_load {Page Buffer} load buffer.
Arguments PDFDocument_create {Page}.
Arguments getPageCount {Page} pdf.
Arguments getPageIndices {Page} pdf.
Arguments pageAt {Page} src index.
Arguments copyPages {Page} src indices.
Arguments addPage {Page} pdf page.
Arguments addPages {Page} pdf pages.
Arguments mergeLoop {Page Buffer} load pdfBuffers mergedPdf.
Arguments mergedDocument {Page Buffer} load pdfBuffers.
Arguments mergePdfs {Page Buffer} load save pdfBuffers.
Arguments splitLoop {Page Buffer} save originalPdf totalPages groups results.
Arguments splitPdf {Page Buffer} load save pdfBuffer pageRanges.
Arguments reorderedDocument {Page Buffer} load pdfBuffer newOrder.
Arguments reorderPdfPages {Page Buffer} load save pdfBuffer newOrder.
Arguments getPdfInfo {Page Buffer} load pdfBuffer.
Arguments pages_at {Page} src indices ps.
Arguments pageNumbered {Page} src n.
Arguments pagesNumbered {Page} src numbers.
Arguments split_result_of {Page Buffer} save original group result.
Arguments selects_pages {Page} original group.
Arguments mkRequest {Buffer} req_file req_pages.
Arguments req_file {Buffer} r.
Arguments req_pages {Buffer} r.
Arguments Status400 {Upload} error.
Arguments Status500 {Upload} error.
Arguments SplitSuccess {Upload} originalPageCount splitFiles.
Arguments mkSplitFile {Upload} file_pages file_pageCount file_upload file_size.
Arguments file_pages {Upload} s.
Arguments file_pageCount {Upload} s.
Arguments file_upload {Upload} s.
Arguments file_size {Upload} s.
Arguments upload {Buffer Upload} uploadToCloudinary buffer.
Arguments splitValidated {Page Buffer} load save {Upload} uploadToCloudinary byteLength fileBuffer bodyPages.
Arguments splitHandlerBody {Page Buffer} load save {Upload} uploadToCloudinary byteLength req.
Arguments splitHandler {Page Buffer} load save {Upload} uploadToCloudinary byteLength req.
Arguments serverlessFile {Page Buffer} save {Upload} uploadToCloudinary byteLength sourcePdf range pageNums.
Arguments serverlessLoop {Page Buffer} save {Upload} uploadToCloudinary byteLength sourcePdf pageRanges results.
Arguments serverlessSplitHandler {Page Buffer} load save {Upload} uploadToCloudinary byteLength req.

(** A concrete instance of the capability, used to run the engine: a page
    is a number, the bytes of a document are its pages ([None] stands for
    bytes that are not a document), and the store keeps what it is sent. *)
Module Demo.

Definition Page : Type := nat.
Definition Buffer : Type := option (list Page).

Definition load (bytes : Buffer) : option (PDFDocument Page) :=
  option_map mkDocument bytes.

Definition save (pdf : PDFDocument Page) : Buffer := Some (docPages pdf).

Definition uploadToCloudinary (bytes : Buffer) : option Buffer := Some bytes.

Definition byteLength (bytes : Buffer) : Z :=
  match bytes with
  | Some l => Z.of_nat (length l)
  | None => 0
  end.

(** A document of five pages, numbered by their place. *)
Definition fivePages : Buffer := Some [1; 2; 3; 4; 5]%nat.

Definition request (bytes : Buffer) (pageRanges : string) : Request Buffer :=
  mkRequest (Some bytes) (Some (lit pageRanges)).

Definition server : Request Buffer -> Response Buffer :=
  splitHandler load save uploadToCloudinary byteLength.

Definition serverless : Request Buffer -> option (Response Buffer) :=
  serverlessSplitHandler load save uploadToCloudinary byteLength.

End Demo.

(** pdf-lib's serialisation where the engine depends on it: [save] writes
    the pages of the handle, after adding one blank page to a handle
    without pages (its [addDefaultPage] default), and [load] reads the
    pages back.  Pages are numbers, 0 is the blank page, and [None] stands
    for bytes that are no document. *)
Module PdfLib.

Definition Page : Type := nat.
Definition Buffer : Type := option (list Page).

Definition blankPage : Page := O.

Definition load (bytes : Buffer) : option (PDFDocument Page) :=
  option_map mkDocument bytes.

Definition save (pdf : PDFDocument Page) : Buffer :=
  match docPages pdf with
  | [] => Some [blankPage]
  | page :: rest => Some (page :: rest)
  end.

End PdfLib.

(** ** config/cloudinary.js and services/cleanup.js: the retention sweeper *)

Module Cleanup.

(** The resource kinds the sweeper visits: ['image'] and ['raw']. *)
Inductive ResourceType : Type := image | raw.

Definition ResourceType_eqb (a b : ResourceType) : bool :=
  match a, b with
  | image, image | raw, raw => true
  | _, _ => false
  end.

(** A tagged object of the store as a listing returns it; [created_at]
    stands for [new Date(r.created_at).getTime()], the instant in
    milliseconds, NaN when the text is not a date. *)
Record Resource : Type := mkResource {
  public_id : string;
  created_at : JsNumber;
  tags : list string
}.

(** The answer of a listing: one page, and the cursor of the next page
    when there is one. *)
Record Listing : Type := mkListing {
  resources : option (list Resource);
  next_cursor : option nat
}.

(** The lines the sweeper writes with [console.log] and [console.error]. *)
Inductive LogLine : Type :=
| LogCronStarted (interval : Z)
| LogTtl (hours : Z)
| LogStarting
| LogDeleted (resourceType : ResourceType) (publicId : string)
| ErrFailedToDelete (publicId : string) (message : string)
| ErrFetching (resourceType : ResourceType) (message : string)
| LogCompleted (elapsedMs totalDeleted imagesDeleted rawDeleted : Z)
| ErrJobFailed (message : string).

(** What the sweeper asks of the outside: the provider's listing and
    deletion (promises, awaited: they resolve or reject), the wall clock and
    the console (synchronous). *)
Inductive Effect : Type -> Type :=
| ResourcesByTag (tag : string) (max_results : Z) (resource_type : ResourceType)
    (cursor : option nat) : Effect (Completion Listing)
| Destroy (publicId : string) (resource_type : ResourceType) : Effect (Completion unit)
| DateNow : Effect Z
| Console (line : LogLine) : Effect unit.

Definition awaited {R : Type} (e : Effect R) : bool :=
  match e with
  | ResourcesByTag _ _ _ _ | Destroy _ _ => true
  | DateNow | Console _ => false
  end.

(** A computation: finished with a value, or asking for an effect and going
    on with its answer.  Every loop of the sweeper runs over a finite list,
    so the computations are finite trees. *)
Inductive Prog (A : Type) : Type :=
| Ret (a : A)
| Vis (R : Type) (e : Effect R) (k : R -> Prog A).

Arguments Ret {A} a.
Arguments Vis {A R} e k.

Fixpoint bindP {A B : Type} (p : Prog A) (f : A -> Prog B) : Prog B :=
  match p with
  | Ret a => f a
  | Vis e k => Vis e (fun r => bindP (k r) f)
  end.

(** An asynchronous function body: it completes normally or throws. *)
Definition Task (A : Type) : Type := Prog (Completion A).

Definition ret {A : Type} (a : A) : Task A := Ret (Normal a).

Definition bindT {A B : Type} (c : Task A) (f : A -> Task B) : Task B :=
  bindP c (fun completion =>
             match completion with
             | Normal a => f a
             | Throw e => Ret (Throw e)
             end).

Notation "x <~ c ;; k" := (bindT c (fun x => k))
  (at level 61, c at next level, right associativity).

(** [await promise]: a rejection is thrown. *)
Definition await {R : Type} (e : Effect (Completion R)) : Task R := Vis e Ret.

(** A synchronous call that does not throw. *)
Definition call {R : Type} (e : Effect R) : Task R := Vis e (fun r => Ret (Normal r)).

(** [try { body } catch (error) { handler }] *)
Definition tryCatch {A : Type} (body : Task A) (handler : JsError -> Task A) : Task A :=
  bindP body (fun completion =>
                match completion with
                | Normal a => Ret (Normal a)
                | Throw e => handler e
                end).

(** [error.message] *)
Definition message_of (error : JsError) : string :=
  match error with
  | UpstreamError message => message
  | MalformedDocument => "malformed document"
  | NoSuchPage => "no such page"
  | InvalidPageOrder => "Invalid page order specified"
  | UploadFailed => "upload failed"
  end.

(** [array.filter(f)] for a callback that reads the clock. *)
Fixpoint filterT {A : Type} (f : A -> Task bool) (l : list A) : Task (list A) :=
  match l with
  | [] => ret []
  | a :: l' =>
      keep <~ f a ;;
      rest <~ filterT f l' ;;
      ret (if keep then a :: rest else rest)
  end.

(** [parseInt(process.env.NAME) || fallback]: the fallback replaces NaN and
    0. *)
Definition configValue (env : option js_string) (fallback : Z) : Z :=
  match env with
  | Some text =>
      match parseInt text with
      | Some n => if n =? 0 then fallback else n
      | None => fallback
      end
  | None => fallback
  end.

(** *** config/cloudinary.js *)

(** [getResourcesByTag(tag, resourceType)]: one request, [max_results: 500],
    no cursor. *)
Definition getResourcesByTag (tag : string) (resourceType : ResourceType) : Task Listing :=
  await (ResourcesByTag tag 500 resourceType None).

(** [deleteResource(publicId, resourceType)] *)
Definition deleteResource (publicId : string) (resourceType : ResourceType) : Task unit :=
  await (Destroy publicId resourceType).

(** *** services/cleanup.js *)

Section Sweeper.

(** The configuration read at start-up. *)
Variable CLEANUP_INTERVAL : Z.
Variable FILE_TTL_HOURS : Z.

(** [Date.now() - creationTime > expirationTime]: false when the creation
    time is NaN. *)
Definition olderThan (now : Z) (creationTime : JsNumber) (expirationTime : Z) : bool :=
  match creationTime with
  | Some t => expirationTime <? now - t
  | None => false
  end.

(** [isExpired(createdAt)] *)
Definition isExpired (createdAt : JsNumber) : Task bool :=
  let creationTime := createdAt in
  let expirationTime := FILE_TTL_HOURS * 60 * 60 * 1000 in
  now <~ call DateNow ;;
  ret (olderThan now creationTime expirationTime).

(** The loop [for (const resource of expiredResources)] with its own
    [try]/[catch], on the running [deletedCount]. *)
Fixpoint deleteLoop (resourceType : ResourceType) (expiredResources : list Resource)
  (deletedCount : Z) : Task Z :=
  match expiredResources with
  | [] => ret deletedCount
  | resource :: rest =>
      deletedCount <~
        tryCatch
          (_ <~ deleteResource (public_id resource) resourceType ;;
           _ <~ call (Console (LogDeleted resourceType (public_id resource))) ;;
           ret (deletedCount + 1))
          (fun error =>
             _ <~ call (Console (ErrFailedToDelete (public_id resource) (message_of error))) ;;
             ret deletedCount) ;;
      deleteLoop resourceType rest deletedCount
  end.

(** [cleanupResourceType(resourceType)].  [deletedCount] is assigned in the
    loop only, and the loop catches its own errors, so the outer [catch]
    runs with [deletedCount] still 0. *)
Definition cleanupResourceType (resourceType : ResourceType) : Task Z :=
  let deletedCount := 0 in
  tryCatch
    (result <~ getResourcesByTag "temp_upload" resourceType ;;
     match resources result with
     | None | Some [] => ret 0
     | Some listed =>
         expiredResources <~ filterT (fun r => isExpired (created_at r)) listed ;;
         deleteLoop resourceType expiredResources deletedCount
     end)
    (fun error =>
       _ <~ call (Console (ErrFetching resourceType (message_of error))) ;;
       ret deletedCount).

(** [cleanupExpiredFiles()] *)
Definition cleanupExpiredFiles : Task unit :=
  _ <~ call (Console LogStarting) ;;
  startTime <~ call DateNow ;;
  tryCatch
    (imagesDeleted <~ cleanupResourceType image ;;
     rawDeleted <~ cleanupResourceType raw ;;
     let totalDeleted := imagesDeleted + rawDeleted in
     now <~ call DateNow ;;
     let duration := now - startTime in
     call (Console (LogCompleted duration totalDeleted imagesDeleted rawDeleted)))
    (fun error => call (Console (ErrJobFailed (message_of error)))).

(** A task registered with the cron library, which calls it at every tick
    of its schedule while [scheduled]. *)
Record CronJob : Type := mkCronJob {
  every_minutes : Z;
  task : Task unit;
  scheduled : bool
}.

(** [startCleanupJob()]: the job it registers with [cron.schedule], and
    the two lines it writes. *)
Definition startCleanupJob : CronJob :=
  mkCronJob CLEANUP_INTERVAL cleanupExpiredFiles true.

Definition startCleanupJob_lines : list LogLine :=
  [LogCronStarted CLEANUP_INTERVAL; LogTtl FILE_TTL_HOURS].

(** [runCleanupNow()] *)
Definition runCleanupNow : Task unit := cleanupExpiredFiles.

End Sweeper.

(** *** The object store, the clock and the console *)

(** The outside world of a sweep: the tagged objects of each kind in the
    order the provider lists them, which listings and which deletions the
    provider rejects (and with what message), the readings of the wall
    clock in the order they are taken, the lines written so far and the
    deletions requested so far. *)
Record World : Type := mkWorld {
  stored : ResourceType -> list Resource;
  listing_error : ResourceType -> option string;
  destroy_error : string -> option string;
  clock : nat -> Z;
  clock_reads : nat;
  console : list LogLine;
  destroy_calls : list (string * ResourceType)
}.

Definition has_tag (tag : string) (r : Resource) : bool :=
  existsb (String.eqb tag) (tags r).

(** The provider's page-size cap. *)
Definition PROVIDER_MAX_RESULTS : Z := 500.

(** The provider's listing by tag: the page of at most [max_results]
    objects (capped) that starts at the cursor, and the cursor of the next
    page when objects remain. *)
Definition listByTag (w : World) (tag : string) (max_results : Z)
  (resource_type : ResourceType) (cursor : option nat) : Listing :=
  let tagged := filter (has_tag tag) (stored w resource_type) in
  let from := match cursor with Some c => c | None => O end in
  let remaining := skipn from tagged in
  let size := Z.to_nat (Z.min max_results PROVIDER_MAX_RESULTS) in
  mkListing (Some (firstn size remaining))
            (if (size <? length remaining)%nat then Some (from + size)%nat else None).

Definition without (publicId : string) (l : list Resource) : list Resource :=
  filter (fun r => negb (String.eqb publicId (public_id r))) l.

(** The answer of the world to an effect, and the world after it. *)
Definition perform {R : Type} (e : Effect R) (w : World) : R * World :=
  match e in Effect R return R * World with
  | ResourcesByTag tag max_results resource_type cursor =>
      match listing_error w resource_type with
      | Some message => (Throw (UpstreamError message), w)
      | None => (Normal (listByTag w tag max_results resource_type cursor), w)
      end
  | Destroy publicId resource_type =>
      let calls := destroy_calls w ++ [(publicId, resource_type)] in
      match destroy_error w publicId with
      | Some message =>
          (Throw (UpstreamError message),
           mkWorld (stored w) (listing_error w) (destroy_error w) (clock w)
                   (clock_reads w) (console w) calls)
      | None =>
          (Normal tt,
           mkWorld (fun kind => if ResourceType_eqb kind resource_type
                                then without publicId (stored w kind)
                                else stored w kind)
                   (listing_error w) (destroy_error w) (clock w)
                   (clock_reads w) (console w) calls)
      end
  | DateNow =>
      (clock w (clock_reads w),
       mkWorld (stored w) (listing_error w) (destroy_error w) (clock w)
               (S (clock_reads w)) (console w) (destroy_calls w))
  | Console line =>
      (tt,
       mkWorld (stored w) (listing_error w) (destroy_error w) (clock w)
               (clock_reads w) (console w ++ [line]) (destroy_calls w))
  end.

(** A computation run to its end, alone. *)
Fixpoint run {A : Type} (p : Prog A) (w : World) : A * World :=
  match p with
  | Ret a => (a, w)
  | Vis e k => let '(r, w') := perform e w in run (k r) w'
  end.

(** *** The scheduler *)

(** A computation run up to its next [await]: the synchronous calls on the
    way are performed. *)
Fixpoint toNextAwait {A : Type} (p : Prog A) (w : World) : Prog A * World :=
  match p with
  | Ret a => (Ret a, w)
  | Vis e k =>
      if awaited e then (Vis e k, w)
      else let '(r, w') := perform e w in toNextAwait (k r) w'
  end.

Definition finished {A : Type} (p : Prog A) : bool :=
  match p with
  | Ret _ => true
  | Vis _ _ => false
  end.

(** The process: the world, the registered job, and the invocations of the
    task that have started and not yet returned, each suspended at an
    [await]. *)
Record System : Type := mkSystem {
  world : World;
  job : option CronJob;
  inflight : list (Task unit)
}.

Inductive Event : Type :=
| Tick                 (* the schedule of the job fires *)
| Settle (k : nat).    (* the promise the k-th invocation awaits settles *)

(** The cron library on a tick: it calls the task. *)
Definition tick (s : System) : System :=
  match job s with
  | Some j =>
      if scheduled j then
        let '(p, w) := toNextAwait (task j) (world s) in
        mkSystem w (job s) (if finished p then inflight s else inflight s ++ [p])
      else s
  | None => s
  end.

Fixpoint replaceOrDrop {A : Type} (k : nat) (p : Prog A) (l : list (Prog A)) : list (Prog A) :=
  match l, k with
  | [], _ => []
  | _ :: l', O => if finished p then l' else p :: l'
  | q :: l', S k' => q :: replaceOrDrop k' p l'
  end.

(** The k-th invocation goes on with the answer to its awaited call, up to
    its next [await] or its end. *)
Definition settle (k : nat) (s : System) : System :=
  match nth_error (inflight s) k with
  | Some (Vis e cont) =>
      let '(r, w1) := perform e (world s) in
      let '(p, w2) := toNextAwait (cont r) w1 in
      mkSystem w2 (job s) (replaceOrDrop k p (inflight s))
  | _ => s
  end.

Definition step (s : System) (ev : Event) : System :=
  match ev with
  | Tick => tick s
  | Settle k => settle k s
  end.

Definition exec (s : System) (trace : list Event) : System := fold_left step trace s.

(** The process after [startCleanupJob()]. *)
Definition started (CLEANUP_INTERVAL FILE_TTL_HOURS : Z) (w : World) : System :=
  mkSystem
    (mkWorld (stored w) (listing_error w) (destroy_error w) (clock w) (clock_reads w)
             (console w ++ startCleanupJob_lines CLEANUP_INTERVAL FILE_TTL_HOURS)
             (destroy_calls w))
    (Some (startCleanupJob CLEANUP_INTERVAL FILE_TTL_HOURS))
    [].

(** The two states of section 4.4, read off the process. *)
Inductive SweeperState : Type := Idle | Sweeping.

Definition sweeps_in_progress (s : System) : nat := length (inflight s).

Definition sweeperState (s : System) : SweeperState :=
  match inflight s with
  | [] => Idle
  | _ :: _ => Sweeping
  end.

(** The numbers a finished sweep reports: its last line. *)
Definition report (w : World) : option LogLine :=
  match rev (console w) with
  | LogCompleted elapsed total images raws :: _ =>
      Some (LogCompleted elapsed total images raws)
  | _ => None
  end.

(** The deletions a world has been asked for. *)
Definition attempted (w : World) : Z := Z.of_nat (length (destroy_calls w)).

(** *** What a sweep is expected to do, in terms of the world *)

(** Whether the provider accepts the deletion of the object. *)
Definition deletion_succeeds (w : World) (r : Resource) : bool :=
  match destroy_error w (public_id r) with
  | None => true
  | Some _ => false
  end.

(** The line the loop writes for an object: deleted, or the failure. *)
Definition deletion_line (w : World) (resourceType : ResourceType) (r : Resource) : LogLine :=
  match destroy_error w (public_id r) with
  | None => LogDeleted resourceType (public_id r)
  | Some message => ErrFailedToDelete (public_id r) message
  end.

(** The objects of [l] left once the deletions of [expired] that the
    provider accepts are done. *)
Definition survivors (w : World) (expired l : list Resource) : list Resource :=
  filter (fun r => negb (existsb (fun x => String.eqb (public_id x) (public_id r)
                                           && deletion_succeeds w x) expired)) l.

(** The objects of a listing found expired when the i-th one is checked
    at the i-th reading of the clock from reading [n] on. *)
Fixpoint expired_from (FILE_TTL_HOURS : Z) (clock : nat -> Z) (n : nat)
  (listed : list Resource) : list Resource :=
  match listed with
  | [] => []
  | r :: rest =>
      if olderThan (clock n) (created_at r) (FILE_TTL_HOURS * 60 * 60 * 1000)
      then r :: expired_from FILE_TTL_HOURS clock (S n) rest
      else expired_from FILE_TTL_HOURS clock (S n) rest
  end.

(** The objects of a kind carrying the tag, as the provider would list
    them over all its pages. *)
Definition allTagged (w : World) (tag : string) (resource_type : ResourceType)
  : list Resource :=
  filter (has_tag tag) (stored w resource_type).

(** What no effect changes: the answers the provider will give and the
    readings of the clock. *)
Definition same_oracles (w w' : World) : Prop :=
  listing_error w' = listing_error w /\ destroy_error w' = destroy_error w
  /\ clock w' = clock w.

(** Whether an object of that public id is in the list. *)
Definition named_in (publicId : string) (l : list Resource) : bool :=
  existsb (fun r => String.eqb publicId (public_id r)) l.

Definition other (kind : ResourceType) : ResourceType :=
  match kind with
  | image => raw
  | raw => image
  end.

(** The world once a sweep has written its first line and read its start
    time. *)
Definition sweepStarted (w : World) : World :=
  snd (perform DateNow (snd (perform (Console LogStarting) w))).

(** The page of the listing a pass over a kind works on: the first 500
    tagged objects, and nothing when the provider rejects the listing. *)
Definition listedPage (w : World) (rt : ResourceType) : list Resource :=
  match listing_error w rt with
  | Some _ => []
  | None => firstn 500 (allTagged w "temp_upload" rt)
  end.

(** The line a rejected listing leaves on the console. *)
Definition listing_lines (w : World) (rt : ResourceType) : list LogLine :=
  match listing_error w rt with
  | Some message => [ErrFetching rt message]
  | None => []
  end.

End Cleanup.

(** A world for the examples: two images, [old] created at instant 0 and
    [new] at 9,000,000 ms, a clock that starts at 10,000,000 ms and moves by
    a millisecond at each reading, a TTL of one hour (3,600,000 ms). *)
Module SweepExample.

Import Cleanup.

Definition old : Resource := mkResource "old" (Some 0) ["temp_upload"%string].
Definition new : Resource := mkResource "new" (Some 9000000) ["temp_upload"%string].
Definition stale : Resource := mkResource "stale" (Some 5) ["temp_upload"%string].

Definition twoImages : World :=
  mkWorld (fun kind => match kind with image => [old; new] | raw => [] end)
          (fun _ => None) (fun _ => None)
          (fun n => 10000000 + Z.of_nat n) O [] [].

(** The provider rejects the listing of the images and the deletion of
    [old]; [stale] is a raw file. *)
Definition failing : World :=
  mkWorld (fun kind => match kind with image => [new] | raw => [old; stale] end)
          (fun kind => match kind with image => Some "timeout"%string | raw => None end)
          (fun publicId => if String.eqb publicId "old" then Some "denied"%string else None)
          (fun n => 10000000 + Z.of_nat n) O [] [].

(** 501 expired images, [img0] ... [img500], on a provider that accepts
    every call. *)
Definition imageNamed (n : nat) : Resource :=
  mkResource ("img" ++ NilEmpty.string_of_uint (Nat.to_uint n)) (Some 0)
             ["temp_upload"%string].

Definition manyImages : World :=
  mkWorld (fun kind => match kind with image => map imageNamed (seq 0 501) | raw => [] end)
          (fun _ => None) (fun _ => None)
          (fun n => 10000000 + Z.of_nat n) O [] [].

End SweepExample.

(** * Definitions for the further properties *)

Module CleanupSpec.

Import Cleanup.

(** The objects a pass over one kind sends to the provider: none when the
    listing is rejected, the expired ones of the first page otherwise. *)
Definition selectedBy (ttl : Z) (w : World) (rt : ResourceType) : list Resource :=
  match listing_error w rt with
  | Some _ => []
  | None => expired_from ttl (clock w) (clock_reads w)
              (firstn 500 (allTagged w "temp_upload" rt))
  end.

(** A tagged object the sweep may delete: it is in the store under that
    kind, carries the tag, and is older than the TTL at a reading of the
    clock taken after the sweep started. *)
Definition deletable (ttl : Z) (w : World) (kind : ResourceType) (r : Resource) : Prop :=
  In r (stored w kind) /\ has_tag "temp_upload" r = true
  /\ exists m, (clock_reads w < m)%nat
               /\ olderThan (clock w m) (created_at r) (ttl * 60 * 60 * 1000) = true.

End CleanupSpec.

(** ** middleware/validation.js: the file filters and the error handler *)

Module Validation.

Definition ALLOWED_IMAGE_TYPES : list string :=
  ["image/jpeg"; "image/png"; "image/webp"; "image/gif"]%string.

Definition ALLOWED_PDF_TYPES : list string := ["application/pdf"%string].

(** The errors that reach [handleMulterError]: a [multer.MulterError] with
    its code and message, any other error with a [code] property, and an
    error without one. *)
Inductive UploadError : Type :=
| MulterError (code : string) (message : string)
| CodedError (code : string) (message : string)
| PlainError (message : string).

(** [cb(null, true)] or [cb(error, false)]. *)
Inductive FilterResult : Type :=
| Accept
| Reject (error : UploadError).

(** [allowedTypes.join(', ')] *)
Definition joinTypes (allowedTypes : list string) : string :=
  String.concat ", " allowedTypes.

(** [createFileFilter(allowedTypes)] applied to a file of that MIME type. *)
Definition createFileFilter (allowedTypes : list string) (mimetype : string) : FilterResult :=
  if existsb (String.eqb mimetype) allowedTypes then Accept
  else Reject (CodedError "INVALID_FILE_TYPE"
                 ("Invalid file type: " ++ mimetype ++ ". Allowed types: "
                  ++ joinTypes allowedTypes)%string).

(** The filters of [uploadImage], [uploadPdf] and [uploadAny]. *)
Definition imageFilter : string -> FilterResult := createFileFilter ALLOWED_IMAGE_TYPES.
Definition pdfFilter : string -> FilterResult := createFileFilter ALLOWED_PDF_TYPES.
Definition anyFilter : string -> FilterResult :=
  createFileFilter (ALLOWED_IMAGE_TYPES ++ ALLOWED_PDF_TYPES).

(** A decimal integer in a template string. *)
Definition showZ (z : Z) : string := NilZero.string_of_int (Z.to_int z).

(** What [handleMulterError] does with an error: it answers with status 400
    and that message, or hands the error on with [next(err)]. *)
Inductive Handled : Type :=
| Answer400 (error : string)
| Next (err : UploadError).

(** [handleMulterError(err, req, res, next)]; [maxFileSizeMB] stands for
    [MAX_FILE_SIZE / (1024 * 1024)], the configured number of megabytes. *)
Definition handleMulterError (maxFileSizeMB MAX_FILES_PER_REQUEST : Z) (err : UploadError)
  : Handled :=
  match err with
  | MulterError code message =>
      if String.eqb code "LIMIT_FILE_SIZE" then
        Answer400 ("File too large. Maximum size is " ++ showZ maxFileSizeMB ++ "MB")%string
      else if String.eqb code "LIMIT_FILE_COUNT" then
        Answer400 ("Too many files. Maximum is " ++ showZ MAX_FILES_PER_REQUEST
                   ++ " files per request")%string
      else Answer400 message
  | CodedError code message =>
      if String.eqb code "INVALID_FILE_TYPE" then Answer400 message
      else Next err
  | PlainError _ => Next err
  end.

End Validation.

(** ** middleware/rateLimiter.js: the key of a request *)

Module RateLimit.

(** [req.headers['x-forwarded-for']?.split(',')[0]?.trim() || req.ip]: the
    header is absent or a string, [req.ip] may be undefined ([None]); the
    empty string is falsy. *)
Definition keyGenerator (forwardedFor : option js_string) (ip : option js_string)
  : option js_string :=
  match forwardedFor with
  | Some header =>
      let first := trim (nth 0 (split comma header) []) in
      match first with
      | [] => ip
      | _ :: _ => Some first
      end
  | None => ip
  end.

End RateLimit.

(** ** config/cloudinary.js and api/index.js: the options sent to the store *)

Module UploadOptions.

(** The values that occur in the option objects. *)
Inductive Value : Type :=
| Str (s : string)
| Strs (l : list string)
| Bool (b : bool)
| Num (z : Z).

(** An object, as the property assignments that made it, in order: an
    object literal assigns its properties from left to right and [...o]
    assigns the properties of [o]; the value of a property is the one
    assigned last. *)
Definition Object : Type := list (string * Value).

Fixpoint get (key : string) (o : Object) : option Value :=
  match o with
  | [] => None
  | (k, v) :: o' =>
      match get key o' with
      | Some later => Some later
      | None => if String.eqb key k then Some v else None
      end
  end.

(** Whether a property value is truthy ([undefined] is [None]). *)
Definition truthy (v : option Value) : bool :=
  match v with
  | None => false
  | Some (Str s) => negb (String.eqb s "")
  | Some (Strs _) => true
  | Some (Bool b) => b
  | Some (Num z) => negb (z =? 0)
  end.

(** [value || fallback] *)
Definition orElse (v : option Value) (fallback : Value) : Value :=
  match v with
  | Some x => if truthy v then x else fallback
  | None => fallback
  end.

(** The options [uploadToCloudinary] of config/cloudinary.js passes to
    [upload_stream]; [timestamp] is [Date.now()]. *)
Definition uploadOptions (timestamp : Z) (options : Object) : Object :=
  [("folder", Str "temp_uploads");
   ("tags", Strs ["temp_upload"; "uploaded_" ++ Validation.showZ timestamp]);
   ("resource_type", orElse (get "resourceType" options) (Str "auto"))]%string
  ++ options.

(** The options [uploadToCloudinary] of api/index.js passes. *)
Definition serverlessUploadOptions (options : Object) : Object :=
  [("resource_type", orElse (get "resourceType" options) (Str "auto"));
   ("folder", Str "fileutils")]%string
  ++ options.

(** The options [getSignedUrl] passes to [cloudinary.url]; [now] is
    [Date.now()]. *)
Definition signedUrlOptions (now : Z) (options : Object) : Object :=
  let expiresAt := now / 1000 + 3600 in
  [("sign_url", Bool true);
   ("type", Str "authenticated");
   ("expires_at", Num expiresAt);
   ("secure", Bool true)]%string
  ++ options.

(** The tags an upload with these options asks for. *)
Definition tagsSent (o : Object) : list string :=
  match get "tags" o with
  | Some (Strs l) => l
  | Some (Str s) => [s]
  | _ => []
  end.

End UploadOptions.

(** A store that holds one object uploaded by the serverless helper, long
    ago, on a provider that accepts every call. *)
Module UploadExample.

Import Cleanup UploadOptions.

Definition untagged : Resource :=
  mkResource "fileutils/a" (Some 0)
             (tagsSent (serverlessUploadOptions [("resourceType"%string, Str "raw")])).

Definition serverlessStore : World :=
  mkWorld (fun kind => match kind with image => [] | raw => [untagged] end)
          (fun _ => None) (fun _ => None)
          (fun n => 10000000 + Z.of_nat n) O [] [].

End UploadExample.

(** ** routes/pdf.js and api/index.js: the compress and merge handlers *)

Section PdfRoutes.

Variable Page : Type.
Variable Buffer : Type.
Variable load : Buffer -> option (PDFDocument Page).
Variable save : PDFDocument Page -> Buffer.
Variable Upload : Type.
Variable uploadToCloudinary : Buffer -> option Upload.
Variable byteLength : Buffer -> Z.

(** [req.file]: its bytes and its size. *)
Record UploadedFile : Type := mkUploadedFile {
  file_buffer : Buffer;
  size : Z
}.

Definition MAX_PDF_PAGES_FOR_COMPRESSION : Z := 10.
Definition MAX_PDF_SIZE_FOR_COMPRESSION : Z := 5 * 1024 * 1024.

(** The answers of the compress handler: the status and [error] of a
    failure, the sizes and the stored object of a success. *)
Inductive CompressResponse : Type :=
| Compress400 (error : string)
| Compress500 (error : string)
| CompressOk (originalSize pageCount : Z) (uploadResult : Upload).

(** POST /api/pdf/compress of routes/pdf.js: the [try] block. *)
Definition compressHandlerBody (file : option UploadedFile) : Completion CompressResponse :=
  match file with
  | None => Normal (Compress400 "No file uploaded")
  | Some f =>
      let originalSize := size f in
      if MAX_PDF_SIZE_FOR_COMPRESSION <? originalSize
      then Normal (Compress400 "PDF too large for Cloudinary compression")
      else
        pdfInfo <- getPdfInfo load (file_buffer f) ;;
        if MAX_PDF_PAGES_FOR_COMPRESSION <? pdfInfo
        then Normal (Compress400 "PDF has too many pages for Cloudinary compression")
        else
          uploadResult <- upload uploadToCloudinary (file_buffer f) ;;
          Normal (CompressOk originalSize pdfInfo uploadResult)
  end.

Definition compressHandler (file : option UploadedFile) : CompressResponse :=
  match compressHandlerBody file with
  | Normal response => response
  | Throw _ => Compress500 "Failed to compress PDF"
  end.

(** The answers of the merge handlers. *)
Inductive MergeResponse : Type :=
| Merge400 (error : string)
| Merge500 (error : string)
| MergeOk (pageCount filesCount : Z) (uploadResult : Upload) (mergedSize : Z).

(** POST /api/pdf/merge of routes/pdf.js; [files] is [req.files], the
    buffers of the uploaded files or undefined. *)
Definition mergeHandlerBody (files : option (list Buffer)) : Completion MergeResponse :=
  match files with
  | None => Normal (Merge400 "At least 2 PDF files are required for merging")
  | Some fs =>
      if (length fs <? 2)%nat
      then Normal (Merge400 "At least 2 PDF files are required for merging")
      else
        let pdfBuffers := fs in
        mergedBuffer <- mergePdfs load save pdfBuffers ;;
        mergedInfo <- getPdfInfo load mergedBuffer ;;
        uploadResult <- upload uploadToCloudinary mergedBuffer ;;
        Normal (MergeOk mergedInfo (Z.of_nat (length fs)) uploadResult
                        (byteLength mergedBuffer))
  end.

Definition mergeHandler (files : option (list Buffer)) : MergeResponse :=
  match mergeHandlerBody files with
  | Normal response => response
  | Throw _ => Merge500 "Failed to merge PDFs"
  end.

End PdfRoutes.

Arguments mkUploadedFile {Buffer} file_buffer size.
Arguments file_buffer {Buffer} u.
Arguments size {Buffer} u.
Arguments Compress400 {Upload} error.
Arguments Compress500 {Upload} error.
Arguments CompressOk {Upload} originalSize pageCount uploadResult.
Arguments compressHandlerBody {Page Buffer} load {Upload} uploadToCloudinary file.
Arguments compressHandler {Page Buffer} load {Upload} uploadToCloudinary file.
Arguments Merge400 {Upload} error.
Arguments Merge500 {Upload} error.
Arguments MergeOk {Upload} pageCount filesCount uploadResult mergedSize.
Arguments mergeHandlerBody {Page Buffer} load save {Upload} uploadToCloudinary byteLength files.
Arguments mergeHandler {Page Buffer} load save {Upload} uploadToCloudinary byteLength files.

(** ** api/index.js: the serverless merge handler *)

Section ServerlessRoutes.

Variable Page : Type.
Variable Buffer : Type.
Variable load : Buffer -> option (PDFDocument Page).
Variable save : PDFDocument Page -> Buffer.

(** The upload helper of api/index.js (folder [fileutils], no tags), with
    the object it resolves with. *)
Variable ServerlessUpload : Type.
Variable uploadToCloudinary : Buffer -> option ServerlessUpload.
Variable byteLength : Buffer -> Z.

(** [mergedPdf.getPageCount()] once [mergedPdf.save()] has run: pdf-lib's
    [save] first adds a page to a handle without pages (its
    [addDefaultPage] default). *)
Definition pageCountAfterSave (pdf : PDFDocument Page) : Z :=
  if (length (docPages pdf) =? 0)%nat then 1 else getPageCount pdf.

(** The answers of the handler: status 500 with [error], or the stored
    object with [pageCount], [filesCount] and [size]. *)
Inductive ServerlessMergeResponse : Type :=
| ServerlessMerge500 (error : string)
| ServerlessMergeOk (uploadResult : ServerlessUpload) (pageCount filesCount mergedSize : Z).

(** POST /api/pdf/merge of api/index.js: the [try] block, on a defined
    [req.files]. *)
Definition serverlessMergeBody (files : list Buffer) : Completion ServerlessMergeResponse :=
  mergedPdf <- mergedDocument load files ;;
  let buffer := save mergedPdf in
  uploadResult <- upload uploadToCloudinary buffer ;;
  Normal (ServerlessMergeOk uploadResult (pageCountAfterSave mergedPdf)
                            (Z.of_nat (length files)) (byteLength buffer)).

(** Iterating an undefined [req.files] throws, and is caught like every
    other error. *)
Definition serverlessMergeHandler (files : option (list Buffer)) : ServerlessMergeResponse :=
  match files with
  | None => ServerlessMerge500 "Failed to merge PDFs"
  | Some fs =>
      match serverlessMergeBody fs with
      | Normal response => response
      | Throw _ => ServerlessMerge500 "Failed to merge PDFs"
      end
  end.

End ServerlessRoutes.

Arguments pageCountAfterSave {Page} pdf.
Arguments ServerlessMerge500 {ServerlessUpload} error.
Arguments ServerlessMergeOk {ServerlessUpload} uploadResult pageCount filesCount mergedSize.
Arguments serverlessMergeBody {Page Buffer} load save {ServerlessUpload} uploadToCloudinary byteLength files.
Arguments serverlessMergeHandler {Page Buffer} load save {ServerlessUpload} uploadToCloudinary byteLength files.

(** * Properties *)

(** ** Examples of section 8 *)

Example parsePageRange_doc_example :
  parsePageRange (lit "1-3,5,7-10") 10 = [0; 1; 2; 4; 6; 7; 8; 9].
Proof. vm_compute. reflexivity. Qed.

Example parsePageRange_unordered :
  parsePageRange (lit "5,1-3") 10 = [0; 1; 2; 4].
Proof. vm_compute. reflexivity. Qed.

Example parsePageRange_descending :
  parsePageRange (lit "3-1") 10 = [].
Proof. vm_compute. reflexivity. Qed.

Example parsePageRange_start_below_one :
  parsePageRange (lit "0-2") 10 = [0; 1].
Proof. vm_compute. reflexivity. Qed.

Example parsePageRange_end_truncated :
  parsePageRange (lit "8-99") 10 = [7; 8; 9].
Proof. vm_compute. reflexivity. Qed.

Example parsePageRange_overlap :
  parsePageRange (lit "2-4,3,3-5,2") 10 = [1; 2; 3; 4].
Proof. vm_compute. reflexivity. Qed.

Example parsePageRange_hex :
  parsePageRange (lit " 0x10 , 0-2, 7-, x, 4 - 99 ") 20 = [0; 1; 3; 4; 5; 6; 7; 8; 9; 10; 11; 12; 13; 14; 15; 16; 17; 18; 19].
Proof. vm_compute. reflexivity. Qed.

(** ** Facts about sets and sorting *)

Section SetsAndSorting.

Lemma existsb_eqb_In (x : Z) (l : list Z) :
  existsb (Z.eqb x) l = true <-> In x l.
Proof.
  rewrite existsb_exists. split.
  - intros [y [Hy Hxy]]. apply Z.eqb_eq in Hxy. now subst.
  - intros H. exists x. split; [assumption | apply Z.eqb_refl].
Qed.

Lemma Set_add_In (x y : Z) (s : JsSet) :
  In y (Set_add x s) <-> y = x \/ In y s.
Proof.
  unfold Set_add. destruct (existsb (Z.eqb x) s) eqn:E.
  - apply existsb_eqb_In in E. split; [tauto | intros [-> | H]; assumption].
  - rewrite in_app_iff. simpl. intuition congruence.
Qed.

Lemma Set_add_NoDup (x : Z) (s : JsSet) :
  NoDup s -> NoDup (Set_add x s).
Proof.
  intros H. unfold Set_add. destruct (existsb (Z.eqb x) s) eqn:E; [assumption |].
  assert (Hx : ~ In x s).
  { intros Hin. apply existsb_eqb_In in Hin. congruence. }
  clear E. induction H as [| a l Ha Hl IH]; simpl.
  - constructor; [intros [] | constructor].
  - constructor.
    + rewrite in_app_iff. simpl. intros [H1 | [H1 | []]]; [tauto |].
      subst. apply Hx. now left.
    + apply IH. intros H1. apply Hx. now right.
Qed.

Lemma insert_sorted_In (x y : Z) (l : list Z) :
  In y (insert_sorted x l) <-> y = x \/ In y l.
Proof.
  induction l as [| a l IH]; simpl.
  - intuition congruence.
  - destruct (x <=? a); simpl; rewrite ?IH; intuition congruence.
Qed.

Lemma sort_ascending_In (y : Z) (l : list Z) :
  In y (sort_ascending l) <-> In y l.
Proof.
  induction l as [| a l IH]; simpl; [tauto |].
  rewrite insert_sorted_In, IH. intuition congruence.
Qed.

Lemma insert_sorted_lt (x : Z) (l : list Z) :
  ~ In x l -> StronglySorted Z.lt l -> StronglySorted Z.lt (insert_sorted x l).
Proof.
  intros Hx Hs. induction Hs as [| a l Hs IH Ha]; simpl.
  - constructor; constructor.
  - destruct (x <=? a) eqn:E.
    + apply Z.leb_le in E.
      assert (x < a) by (assert (x <> a) by (intros ->; apply Hx; now left); lia).
      constructor; [now constructor |].
      constructor; [assumption |].
      rewrite Forall_forall in *. intros z Hz. specialize (Ha z Hz). lia.
    + apply Z.leb_gt in E. constructor.
      * apply IH. intros H. apply Hx. now right.
      * rewrite Forall_forall in *. intros z Hz.
        apply insert_sorted_In in Hz. destruct Hz as [-> | Hz]; [lia | now apply Ha].
Qed.

Lemma sort_ascending_lt (l : list Z) :
  NoDup l -> StronglySorted Z.lt (sort_ascending l).
Proof.
  induction 1 as [| a l Ha Hl IH]; simpl; [constructor |].
  apply insert_sorted_lt; [| assumption].
  now rewrite sort_ascending_In.
Qed.

(** A strictly ascending list is determined by its elements. *)
Lemma strictly_ascending_unique (l1 l2 : list Z) :
  StronglySorted Z.lt l1 -> StronglySorted Z.lt l2 ->
  (forall x, In x l1 <-> In x l2) -> l1 = l2.
Proof.
  intros H1. revert l2. induction H1 as [| a l1 Hs1 IH Ha]; intros l2 H2 Hin.
  - destruct l2 as [| b l2]; [reflexivity |].
    exfalso. apply (proj2 (Hin b)). now left.
  - destruct H2 as [| b l2 Hs2 Hb].
    + exfalso. apply (proj1 (Hin a)). now left.
    + rewrite Forall_forall in Ha, Hb.
      assert (a = b).
      { destruct (proj1 (Hin a) (or_introl eq_refl)) as [E | E]; [congruence |].
        destruct (proj2 (Hin b) (or_introl eq_refl)) as [E' | E']; [congruence |].
        specialize (Ha _ E'). specialize (Hb _ E). lia. }
      subst b. f_equal. apply IH; [assumption |].
      intros x. split; intros Hx.
      * destruct (proj1 (Hin x) (or_intror Hx)) as [E | E]; [| assumption].
        subst x. specialize (Ha _ Hx). lia.
      * destruct (proj2 (Hin x) (or_intror Hx)) as [E | E]; [| assumption].
        subst x. specialize (Hb _ Hx). lia.
Qed.

(** Any ascending arrangement of a duplicate-free list is the one
    [sort_ascending] returns: the result of the sort does not depend on the
    algorithm. *)
Lemma sort_ascending_any_algorithm (l sorted : list Z) :
  NoDup l -> Permutation l sorted -> StronglySorted Z.le sorted ->
  sorted = sort_ascending l.
Proof.
  intros Hnd Hperm Hle.
  apply strictly_ascending_unique.
  - assert (Hnd' : NoDup sorted) by (eapply Permutation_NoDup; eassumption).
    clear Hperm. induction Hle as [| a s Hs IH Ha]; [constructor |].
    inversion Hnd' as [| ? ? Hna Hnd'']; subst.
    constructor; [now apply IH |].
    rewrite Forall_forall in *. intros z Hz. specialize (Ha z Hz).
    assert (z <> a) by (intros ->; contradiction). lia.
  - now apply sort_ascending_lt.
  - intros x. rewrite sort_ascending_In. split; intros H.
    + eapply Permutation_in; [apply Permutation_sym |]; eassumption.
    + eapply Permutation_in; eassumption.
Qed.

End SetsAndSorting.

(** ** What the loop and one atom add to the set *)

Section ParsePageRangeFacts.

Lemma rangeLoop_In (i endv : JsNumber) (totalPages : Z) (pages : JsSet) (x : Z) :
  In x (rangeLoop i endv totalPages pages) <->
  In x pages \/ exists z, in_range i endv totalPages z /\ x = z - 1.
Proof.
  funelim (rangeLoop i endv totalPages pages).
  - (* the condition holds: one more turn *)
    match goal with IH : forall x, In x _ <-> _ |- _ => rewrite IH; clear IH end.
    match goal with E : sumbool_of_bool _ = _ |- _ => clear E end.
    match goal with E : _ && _ = true |- _ =>
      apply andb_prop in E; destruct E as [Hc1 Hc2] end.
    destruct i as [iz |]; [| discriminate]. destruct endv as [ez |]; [| discriminate].
    simpl in Hc1, Hc2. apply Z.leb_le in Hc1, Hc2.
    unfold ge, le, succ, pred, option_map, Set_add_number.
    destruct (1 <=? iz) eqn:E1; [apply Z.leb_le in E1 | apply Z.leb_gt in E1].
    + rewrite Set_add_In. unfold in_range. split.
      * intros [[-> | Hp] | [z [(s & e & Hs & He & Hz) Hx]]].
        -- right. exists iz. split; [exists iz, ez; repeat split; lia | reflexivity].
        -- now left.
        -- right. exists z. injection Hs as <-. injection He as <-.
           split; [exists iz, ez; repeat split; lia | assumption].
      * intros [Hp | [z [(s & e & Hs & He & Hz) Hx]]]; [left; now right |].
        injection Hs as <-. injection He as <-.
        destruct (Z.eq_dec z iz) as [-> | Hne].
        -- left. left. unfold Z.pred. lia.
        -- right. exists z. split; [exists (Z.succ iz), ez; repeat split; lia | assumption].
    + unfold in_range. split.
      * intros [Hp | [z [(s & e & Hs & He & Hz) Hx]]]; [now left |].
        right. exists z. injection Hs as <-. injection He as <-.
        split; [exists iz, ez; repeat split; lia | assumption].
      * intros [Hp | [z [(s & e & Hs & He & Hz) Hx]]]; [now left |].
        injection Hs as <-. injection He as <-.
        right. exists z. split; [exists (Z.succ iz), ez; repeat split; lia | assumption].
  - (* the condition fails: the loop is over *)
    split; [now left |]. intros [Hp | [z [(s & e' & Hs & He & Hz) Hx]]]; [assumption |].
    subst. simpl in *.
    match goal with E : sumbool_of_bool _ = _ |- _ => clear E end.
    match goal with E : _ && _ = false |- _ =>
      apply andb_false_iff in E; destruct E as [E | E]; apply Z.leb_gt in E end; lia.
Qed.

Lemma rangeLoop_NoDup (i endv : JsNumber) (totalPages : Z) (pages : JsSet) :
  NoDup pages -> NoDup (rangeLoop i endv totalPages pages).
Proof.
  funelim (rangeLoop i endv totalPages pages); intros Hnd.
  - match goal with IH : NoDup _ -> NoDup _ |- _ => apply IH end.
    destruct (ge i (Some 1)); [| assumption].
    destruct (pred i); simpl; [now apply Set_add_NoDup | assumption].
  - assumption.
Qed.

Lemma parsePart_In (totalPages : Z) (pages : JsSet) (part : js_string) (x : Z) :
  In x (parsePart totalPages pages part) <->
  In x pages \/ contributes totalPages part x.
Proof.
  unfold parsePart, contributes, Reference.atom_contains.
  destruct (includes dash part).
  - rewrite rangeLoop_In.
    destruct (map (fun n => parseInt (trim n)) (split dash part)) as [| a [| b r]];
      simpl nth; unfold in_range.
    + split; intros [Hp | Hc]; try (now left); exfalso.
      * destruct Hc as (z & (s & e & Hs & _) & _). discriminate.
      * destruct Hc as (z & Hf & _). discriminate.
    + split; intros [Hp | Hc]; try (now left); exfalso.
      * destruct Hc as (z & (s & e & _ & He & _) & _). discriminate.
      * destruct Hc as (z & Hf & _). destruct a; discriminate.
    + split; intros [Hp | Hc]; try (now left); right.
      * destruct Hc as (z & (s & e & -> & -> & Hz) & Hx). exists z.
        rewrite andb_true_iff, !Z.leb_le. repeat split; lia.
      * destruct Hc as (z & Hf & Hz). exists z.
        destruct a as [s |]; [| discriminate]. destruct b as [e |]; [| discriminate].
        rewrite andb_true_iff, !Z.leb_le in Hf.
        split; [exists s, e; repeat split; lia | lia].
  - destruct (parseInt part) as [n |]; simpl.
    + destruct ((1 <=? n) && (n <=? totalPages)) eqn:E.
      * rewrite andb_true_iff, !Z.leb_le in E. rewrite Set_add_In. split.
        -- intros [-> | Hp]; [right | now left].
           exists n. rewrite Z.eqb_refl. unfold Z.pred. repeat split; lia.
        -- intros [Hp | (z & Hf & Hz)]; [now right |].
           apply Z.eqb_eq in Hf. subst z. left. unfold Z.pred. lia.
      * split; [now left |]. intros [Hp | (z & Hf & Hz)]; [assumption |].
        apply Z.eqb_eq in Hf. subst z.
        apply andb_false_iff in E. destruct E as [E | E]; apply Z.leb_gt in E; lia.
    + split; [now left |]. intros [Hp | (z & Hf & _)]; [assumption | discriminate].
Qed.

Lemma parsePart_NoDup (totalPages : Z) (pages : JsSet) (part : js_string) :
  NoDup pages -> NoDup (parsePart totalPages pages part).
Proof.
  intros Hnd. unfold parsePart. destruct (includes dash part).
  - now apply rangeLoop_NoDup.
  - destruct (_ && _); [| assumption].
    destruct (parseInt part); simpl; [now apply Set_add_NoDup | assumption].
Qed.

Lemma fold_parsePart_In (totalPages : Z) (parts : list js_string) (pages : JsSet) (x : Z) :
  In x (fold_left (parsePart totalPages) parts pages) <->
  In x pages \/ exists part, In part parts /\ contributes totalPages part x.
Proof.
  revert pages. induction parts as [| p parts IH]; intros pages; simpl.
  - split; [now left |]. intros [Hp | (part & [] & _)]. assumption.
  - rewrite IH, parsePart_In. split.
    + intros [[Hp | Hc] | (part & Hin & Hc)].
      * now left.
      * right. exists p. split; [now left | assumption].
      * right. exists part. split; [now right | assumption].
    + intros [Hp | (part & [-> | Hin] & Hc)].
      * left. now left.
      * left. now right.
      * right. now exists part.
Qed.

Lemma fold_parsePart_NoDup (totalPages : Z) (parts : list js_string) (pages : JsSet) :
  NoDup pages -> NoDup (fold_left (parsePart totalPages) parts pages).
Proof.
  revert pages. induction parts as [| p parts IH]; intros pages Hnd; simpl.
  - assumption.
  - apply IH. now apply parsePart_NoDup.
Qed.

(** Membership in the result of [parsePageRange]. *)
Lemma parsePageRange_In (pageString : js_string) (totalPages x : Z) :
  In x (parsePageRange pageString totalPages) <->
  exists part, In part (map trim (split comma pageString)) /\
               contributes totalPages part x.
Proof.
  unfold parsePageRange. rewrite sort_ascending_In, fold_parsePart_In.
  split; [intros [[] | H]; assumption | intros H; now right].
Qed.

Lemma parsePageRange_ascending (pageString : js_string) (totalPages : Z) :
  StronglySorted Z.lt (parsePageRange pageString totalPages).
Proof.
  unfold parsePageRange. apply sort_ascending_lt, fold_parsePart_NoDup. constructor.
Qed.

Lemma StronglySorted_map_lt {A : Type} (R : A -> A -> Prop) (f : A -> Z) (l : list A) :
  (forall a b, R a b -> f a < f b) ->
  StronglySorted R l -> StronglySorted Z.lt (map f l).
Proof.
  intros Hf. induction 1 as [| a l Hs IH Ha]; simpl; constructor; [assumption |].
  rewrite Forall_forall in *. intros y Hy. apply in_map_iff in Hy.
  destruct Hy as (b & <- & Hb). apply Hf. now apply Ha.
Qed.

Lemma StronglySorted_filter_lt (f : Z -> bool) (l : list Z) :
  StronglySorted Z.lt l -> StronglySorted Z.lt (filter f l).
Proof.
  induction 1 as [| a l Hs IH Ha]; simpl; [constructor |].
  destruct (f a); [| assumption]. constructor; [assumption |].
  rewrite Forall_forall in *. intros y Hy. apply filter_In in Hy. now apply Ha.
Qed.

Lemma seq_ascending (a n : nat) : StronglySorted lt (seq a n).
Proof.
  revert a. induction n as [| n IH]; intros a; simpl; constructor; [apply IH |].
  rewrite Forall_forall. intros y Hy. apply in_seq in Hy. lia.
Qed.

Lemma page_numbers_In (totalPages z : Z) :
  In z (Reference.page_numbers totalPages) <-> 1 <= z /\ z <= totalPages.
Proof.
  unfold Reference.page_numbers. rewrite in_map_iff. split.
  - intros (n & <- & Hn). apply in_seq in Hn. lia.
  - intros Hz. exists (Z.to_nat z). split; [lia |]. apply in_seq. lia.
Qed.

Lemma reference_parse_In (expression : js_string) (totalPages x : Z) :
  In x (Reference.parse expression totalPages) <->
  exists part, In part (map trim (split comma expression)) /\
               contributes totalPages part x.
Proof.
  unfold Reference.parse, Reference.selected, Reference.atoms, contributes.
  rewrite in_map_iff. split.
  - intros (z & <- & Hz). apply filter_In in Hz. destruct Hz as [Hz Hsel].
    apply page_numbers_In in Hz. apply existsb_exists in Hsel.
    destruct Hsel as (part & Hin & Hc). exists part. split; [assumption |].
    exists z. unfold Z.pred. repeat split; try lia. assumption.
  - intros (part & Hin & z & Hc & Hz1 & Hz2 & ->). exists z.
    split; [unfold Z.pred; lia |]. apply filter_In. split.
    + apply page_numbers_In. lia.
    + apply existsb_exists. now exists part.
Qed.

Lemma reference_parse_ascending (expression : js_string) (totalPages : Z) :
  StronglySorted Z.lt (Reference.parse expression totalPages).
Proof.
  unfold Reference.parse.
  apply StronglySorted_map_lt with (R := Z.lt); [unfold Z.pred; intros; lia |].
  apply StronglySorted_filter_lt. unfold Reference.page_numbers.
  apply StronglySorted_map_lt with (R := lt); [intros; lia | apply seq_ascending].
Qed.

End ParsePageRangeFacts.

(** ** Section 4.1: the parser computes the reference definition *)

(** C1.  For every expression and every page count, [parsePageRange]
    returns the list of the reference definition of section 4.1: the
    zero-based indices [i - 1] of the pages [1 <= i <= totalPages] that
    some comma-separated atom names (a range atom names the integers of
    [start, end], any other atom its single integer), in ascending order
    and without duplicates; and on ["1-3,5,7-10"] with 10 pages that list
    is [0,1,2,4,6,7,8,9]. *)
Theorem parsePageRange_is_reference :
  (forall (expression : js_string) (totalPages : Z),
      parsePageRange expression totalPages = Reference.parse expression totalPages)
  /\ (forall (expression : js_string) (totalPages : Z),
         StronglySorted Z.lt (parsePageRange expression totalPages)
         /\ NoDup (parsePageRange expression totalPages))
  /\ parsePageRange (lit "1-3,5,7-10") 10 = [0; 1; 2; 4; 6; 7; 8; 9].
Proof.
  assert (Heq : forall expression totalPages,
             parsePageRange expression totalPages = Reference.parse expression totalPages).
  { intros expression totalPages. apply strictly_ascending_unique.
    - apply parsePageRange_ascending.
    - apply reference_parse_ascending.
    - intros x. now rewrite parsePageRange_In, reference_parse_In. }
  split; [exact Heq |]. split.
  - intros expression totalPages. split; [apply parsePageRange_ascending |].
    pose proof (parsePageRange_ascending expression totalPages) as Hs.
    induction Hs as [| a l Hs IH Ha]; constructor; [| assumption].
    intros Hin. rewrite Forall_forall in Ha. specialize (Ha a Hin). lia.
  - vm_compute. reflexivity.
Qed.

(** ** Malformed and out-of-bounds atoms are skipped *)

Section InvalidAtoms.





End InvalidAtoms.

(** *** How [parseInt] reads the text of an atom *)















(** ** Section 4.2: merge, split, reorder *)

(** Splitting what [join] wrote gives the parts back, when no part holds
    the separator. *)
Lemma split_one_segment (sep : code_unit) (g : js_string) :
  includes sep g = false -> split sep g = [g].
Proof.
  unfold includes. induction g as [| c g IH]; [reflexivity |].
  cbn [existsb split]. intros H. apply orb_false_iff in H. destruct H as [Hc Hg].
  rewrite N.eqb_sym, Hc, (IH Hg). reflexivity.
Qed.

Lemma split_first_segment (sep : code_unit) (g rest : js_string) :
  includes sep g = false -> split sep (g ++ sep :: rest) = g :: split sep rest.
Proof.
  unfold includes. induction g as [| c g IH].
  - intros _. cbn [app split]. now rewrite N.eqb_refl.
  - cbn [existsb app split]. intros H. apply orb_false_iff in H. destruct H as [Hc Hg].
    rewrite N.eqb_sym, Hc, (IH Hg). reflexivity.
Qed.

Lemma split_join (sep : code_unit) (parts : list js_string) :
  Forall (fun g => includes sep g = false) parts ->
  split sep (join sep parts) = match parts with
                               | [] => [[]]
                               | _ :: _ => parts
                               end.
Proof.
  induction 1 as [| g rest Hg Hrest IH]; [reflexivity |].
  destruct rest as [| g' rest'].
  - cbn [join]. now apply split_one_segment.
  - change (join sep (g :: g' :: rest')) with (g ++ sep :: join sep (g' :: rest')).
    rewrite (split_first_segment _ _ _ Hg), IH. reflexivity.
Qed.

Section PdfEngineFacts.

Variable Page : Type.
Variable Buffer : Type.
Variable load : Buffer -> option (PDFDocument Page).
Variable save : PDFDocument Page -> Buffer.
Variable Upload : Type.
Variable uploadToCloudinary : Buffer -> option Upload.
Variable byteLength : Buffer -> Z.

Lemma addPages_app (pdf : PDFDocument Page) (ps : list Page) :
  docPages (addPages pdf ps) = docPages pdf ++ ps.
Proof.
  revert pdf. induction ps as [| p ps IH]; intros pdf; simpl.
  - now rewrite app_nil_r.
  - rewrite IH. simpl. now rewrite <- app_assoc.
Qed.

Lemma addPages_create (ps : list Page) :
  addPages PDFDocument_create ps = mkDocument ps.
Proof.
  pose proof (addPages_app PDFDocument_create ps) as H. simpl in H.
  destruct (addPages PDFDocument_create ps) as [l]. simpl in H. now subst.
Qed.

(** Copying the pages at indices that all name a page succeeds and returns
    those pages in the order of the indices. *)
Lemma copyPages_in_range (src : PDFDocument Page) (indices : list Z) :
  Forall (fun i => 0 <= i < getPageCount src) indices ->
  exists ps, copyPages src (map Some indices) = Normal ps /\ pages_at src indices ps.
Proof.
  unfold copyPages, pages_at. induction 1 as [| i l Hi Hl IH]; simpl.
  - exists []. split; [reflexivity | constructor].
  - destruct IH as (ps & Hps & Hat).
    assert (Hlt : (Z.to_nat i < length (docPages src))%nat)
      by (unfold getPageCount in Hi; lia).
    apply nth_error_Some in Hlt.
    destruct (nth_error (docPages src) (Z.to_nat i)) as [p |] eqn:E; [| congruence].
    exists (p :: ps).
    assert (Hneg : (i <? 0) = false) by (apply Z.ltb_ge; lia).
    rewrite Hneg. simpl. rewrite Hps. simpl. split; [reflexivity |].
    constructor; [split; [lia | assumption] | assumption].
Qed.

Lemma copyPages_suffix (pre suf : list Page) :
  copyPages (mkDocument (pre ++ suf))
    (map (fun n => Some (Z.of_nat n)) (seq (length pre) (length suf))) = Normal suf.
Proof.
  revert pre. induction suf as [| p suf IH]; intros pre; simpl; [reflexivity |].
  unfold copyPages in *. simpl.
  assert (Hneg : (Z.of_nat (length pre) <? 0) = false) by (apply Z.ltb_ge; lia).
  rewrite Hneg, Nat2Z.id, nth_error_app2, Nat.sub_diag by lia. simpl.
  specialize (IH (pre ++ [p])). rewrite <- app_assoc, length_app in IH. simpl in IH.
  rewrite Nat.add_1_r in IH. rewrite IH. reflexivity.
Qed.

(** Copying all the pages of a document returns them in its own order. *)
Lemma copyPages_all (pdf : PDFDocument Page) :
  copyPages pdf (getPageIndices pdf) = Normal (docPages pdf).
Proof.
  destruct pdf as [l]. apply (copyPages_suffix [] l).
Qed.

Lemma mergeLoop_loaded (pdfBuffers : list Buffer) (docs : list (PDFDocument Page))
  (mergedPdf : PDFDocument Page) :
  Forall2 (fun b d => load b = Some d) pdfBuffers docs ->
  mergeLoop load pdfBuffers mergedPdf =
  Normal (mkDocument (docPages mergedPdf ++ concat (map docPages docs))).
Proof.
  intros H. revert mergedPdf. induction H as [| b d bs ds Hb Hbs IH]; intros mergedPdf; simpl.
  - rewrite app_nil_r. now destruct mergedPdf.
  - unfold PDFDocument_load. rewrite Hb. simpl. rewrite copyPages_all. simpl.
    rewrite IH, addPages_app, <- app_assoc. reflexivity.
Qed.

Lemma mergeLoop_malformed (pdfBuffers : list Buffer) (mergedPdf : PDFDocument Page) :
  Exists (fun b => load b = None) pdfBuffers ->
  mergeLoop load pdfBuffers mergedPdf = Throw MalformedDocument.
Proof.
  intros H. revert mergedPdf. induction pdfBuffers as [| b bs IH]; intros mergedPdf.
  - inversion H.
  - simpl. unfold PDFDocument_load. destruct (load b) as [d |] eqn:E; simpl; [| reflexivity].
    rewrite copyPages_all. simpl. apply IH.
    inversion H as [? ? Hb | ? ? Hbs]; subst; [congruence | assumption].
Qed.

Lemma getPageCount_concat (docs : list (PDFDocument Page)) :
  getPageCount (mkDocument (concat (map docPages docs))) =
  fold_right Z.add 0 (map getPageCount docs).
Proof.
  unfold getPageCount. simpl. induction docs as [| d ds IH]; simpl; [reflexivity |].
  rewrite length_app. lia.
Qed.

Lemma concat_pages_not_empty (docs : list (PDFDocument Page)) :
  Exists (fun d => docPages d <> []) docs -> concat (map docPages docs) <> [].
Proof.
  induction 1 as [d ds Hd | d ds _ IH]; cbn [map concat]; intros E;
    apply app_eq_nil in E; destruct E as [E1 E2]; [now apply Hd | now apply IH].
Qed.

(** C4.  When every input buffer parses, the handle [mergePdfs] saves holds
    the pages of the inputs, each input's pages in its own order and the
    inputs in the order given, none dropped or moved; when at least one
    input has a page, the bytes returned read back as that document (given
    that the bytes saved for a document with pages read back as it), so
    the page count of the result is the sum of the inputs' page counts; and
    when some input buffer does not parse, [mergePdfs] fails with
    MalformedDocument. *)
Theorem mergePdfs_concatenates :
  (forall pdf : PDFDocument Page, docPages pdf <> [] -> load (save pdf) = Some pdf) ->
  (forall (pdfBuffers : list Buffer) (docs : list (PDFDocument Page)),
      Forall2 (fun b d => load b = Some d) pdfBuffers docs ->
      let merged := mkDocument (concat (map docPages docs)) in
      mergedDocument load pdfBuffers = Normal merged
      /\ mergePdfs load save pdfBuffers = Normal (save merged)
      /\ (Exists (fun d => docPages d <> []) docs ->
          load (save merged) = Some merged
          /\ getPageCount merged = fold_right Z.add 0 (map getPageCount docs)))
  /\ (forall pdfBuffers : list Buffer,
         Exists (fun b => load b = None) pdfBuffers ->
         mergePdfs load save pdfBuffers = Throw MalformedDocument).
Proof.
  intros Hcodec. split.
  - intros pdfBuffers docs H merged.
    assert (Hm : mergedDocument load pdfBuffers = Normal merged).
    { unfold mergedDocument. now rewrite (mergeLoop_loaded _ docs). }
    split; [exact Hm |]. split; [unfold mergePdfs; now rewrite Hm |].
    intros Hpage. split; [| apply getPageCount_concat].
    apply Hcodec. subst merged. cbn [docPages]. now apply concat_pages_not_empty.
  - intros pdfBuffers H. unfold mergePdfs, mergedDocument.
    now rewrite mergeLoop_malformed.
Qed.

Lemma parsePageRange_bounds (group : js_string) (totalPages : Z) :
  Forall (fun i => 0 <= i < totalPages) (parsePageRange group totalPages).
Proof.
  apply Forall_forall. intros x Hx. apply parsePageRange_In in Hx.
  destruct Hx as (part & _ & z & _ & Hz). lia.
Qed.

Lemma splitLoop_results (original : PDFDocument Page) (groups : list js_string)
  (results : list (SplitResult Buffer)) :
  exists rs,
    splitLoop save original (getPageCount original) groups results = Normal (results ++ rs)
    /\ Forall2 (split_result_of save original) (filter (selects_pages original) groups) rs.
Proof.
  revert results. induction groups as [| group rest IH]; intros results; simpl.
  - exists []. rewrite app_nil_r. split; [reflexivity | constructor].
  - unfold selects_pages at 1.
    destruct (length (parsePageRange group (getPageCount original)) =? 0)%nat eqn:E; simpl.
    + apply IH.
    + destruct (copyPages_in_range original _ (parsePageRange_bounds group (getPageCount original)))
        as (ps & Hcopy & Hat).
      rewrite Hcopy. simpl. rewrite addPages_create.
      destruct (IH (results ++
                      [mkSplitResult (save (mkDocument ps)) group
                         (Z.of_nat (length (parsePageRange group (getPageCount original))))]))
        as (rs & Hrs & Hall).
      exists (mkSplitResult (save (mkDocument ps)) group
                (Z.of_nat (length (parsePageRange group (getPageCount original)))) :: rs).
      rewrite Hrs, <- app_assoc. split; [reflexivity |].
      constructor; [| assumption]. exists ps. split; [assumption | reflexivity].
Qed.

Lemma no_group_selects (original : PDFDocument Page) (groups : list js_string) :
  filter (selects_pages original) groups = [] <->
  Forall (fun group => parsePageRange group (getPageCount original) = []) groups.
Proof.
  induction groups as [| group rest IH]; simpl.
  - split; constructor.
  - unfold selects_pages at 1.
    destruct (parsePageRange group (getPageCount original)) as [| i l] eqn:E; simpl.
    + rewrite IH. split; [intros H; constructor; assumption | now inversion 1].
    + split; [discriminate | inversion 1; congruence].
Qed.

Lemma success_not_status400 (c : Completion (list (SplitFile Upload)))
  (n : Z) (msg : string) :
  (files <- c ;; Normal (SplitSuccess n files)) <> Normal (Status400 msg).
Proof.
  destruct c; simpl; discriminate.
Qed.

(** [splitPdf] over the groups [splitGroups] finds in the page string:
    one result for each group whose page-index set is not empty, in the
    order of the groups; none at all, and the handler's answer
    'No valid pages specified', exactly when every group resolves to the
    empty set. *)
Lemma splitPdf_over_groups (pdfBuffer : Buffer) (original : PDFDocument Page)
  (pageRanges : js_string) :
  load pdfBuffer = Some original ->
  exists results,
    splitPdf load save pdfBuffer pageRanges = Normal results
    /\ Forall2 (split_result_of save original)
               (filter (selects_pages original) (splitGroups pageRanges)) results
    /\ (results = [] <->
        Forall (fun group => parsePageRange group (getPageCount original) = [])
               (splitGroups pageRanges))
    /\ (splitValidated load save uploadToCloudinary byteLength pdfBuffer pageRanges
          = Normal (Status400 "No valid pages specified") <->
        Forall (fun group => parsePageRange group (getPageCount original) = [])
               (splitGroups pageRanges)).
Proof.
  intros Hload.
  destruct (splitLoop_results original (splitGroups pageRanges) []) as (results & Hloop & Hall).
  simpl in Hloop. exists results.
  assert (Hsplit : splitPdf load save pdfBuffer pageRanges = Normal results).
  { unfold splitPdf, PDFDocument_load. rewrite Hload. simpl. exact Hloop. }
  assert (Hempty : results = [] <->
                   Forall (fun group => parsePageRange group (getPageCount original) = [])
                          (splitGroups pageRanges)).
  { rewrite <- no_group_selects. split; intros H.
    - subst results. now inversion Hall.
    - rewrite H in Hall. now inversion Hall. }
  repeat split; try assumption; try (apply Hempty; assumption).
  - intros Hresp. apply Hempty.
    unfold splitValidated, getPdfInfo, PDFDocument_load in Hresp.
    rewrite Hload in Hresp. simpl in Hresp. rewrite Hsplit in Hresp. simpl in Hresp.
    destruct results as [| r rs]; [reflexivity |]. simpl in Hresp.
    exfalso. revert Hresp. apply success_not_status400.
  - intros Hnone. apply Hempty in Hnone. subst results.
    unfold splitValidated, getPdfInfo, PDFDocument_load.
    rewrite Hload. simpl. rewrite Hsplit. reflexivity.
Qed.

(** The groups of a page string written by joining group expressions with
    semicolons: the expressions, trimmed, without the blank ones. *)
Lemma splitGroups_join (groups : list js_string) :
  Forall (fun group => includes semicolon group = false) groups ->
  splitGroups (join semicolon groups)
  = filter (fun s => negb (length s =? 0)%nat) (map trim groups).
Proof.
  intros H. unfold splitGroups. rewrite (split_join _ _ H).
  destruct groups; reflexivity.
Qed.

Lemma blank_group_selects_nothing (totalPages : Z) :
  parsePageRange [] totalPages = [].
Proof. reflexivity. Qed.

Lemma selected_groups_not_blank (original : PDFDocument Page) (l : list js_string) :
  filter (selects_pages original) (filter (fun s => negb (length s =? 0)%nat) l)
  = filter (selects_pages original) l.
Proof.
  induction l as [| g l IH]; [reflexivity |]. cbn [filter].
  destruct g as [| c g]; cbn [length Nat.eqb negb].
  - unfold selects_pages at 2. rewrite blank_group_selects_nothing. cbn [length Nat.eqb negb].
    exact IH.
  - cbn [filter]. now rewrite IH.
Qed.

Lemma empty_groups_not_blank (totalPages : Z) (l : list js_string) :
  Forall (fun group => parsePageRange group totalPages = [])
         (filter (fun s => negb (length s =? 0)%nat) l)
  <-> Forall (fun group => parsePageRange group totalPages = []) l.
Proof.
  rewrite !Forall_forall. split; intros H g Hg.
  - destruct g as [| c g]; [apply blank_group_selects_nothing |].
    apply H. apply filter_In. split; [assumption | reflexivity].
  - apply filter_In in Hg. now apply H.
Qed.

(** C2.  For a source document and an ordered sequence of group
    expressions, written into the page string with semicolons between
    them, [splitPdf] resolves each group on its own and returns, in the
    order of the groups, one result for each group whose page-index set is
    not empty and none for the others: the result of a group is the
    document of exactly the pages of its index set, in ascending index
    order, with the group's trimmed text and the number of those pages.
    The result list is empty, and the handler answers
    'No valid pages specified', exactly when every group resolves to the
    empty set. *)
Theorem splitPdf_groups (pdfBuffer : Buffer) (original : PDFDocument Page)
  (groups : list js_string) :
  load pdfBuffer = Some original ->
  Forall (fun group => includes semicolon group = false) groups ->
  let pageRanges := join semicolon groups in
  exists results,
    splitPdf load save pdfBuffer pageRanges = Normal results
    /\ Forall2 (split_result_of save original)
               (filter (selects_pages original) (map trim groups)) results
    /\ (results = [] <->
        Forall (fun group => parsePageRange (trim group) (getPageCount original) = [])
               groups)
    /\ (splitValidated load save uploadToCloudinary byteLength pdfBuffer pageRanges
          = Normal (Status400 "No valid pages specified") <->
        Forall (fun group => parsePageRange (trim group) (getPageCount original) = [])
               groups).
Proof.
  intros Hload Hgroups pageRanges.
  destruct (splitPdf_over_groups pdfBuffer original pageRanges Hload)
    as (results & Hsplit & Hall & Hempty & Hanswer).
  assert (Hsame : Forall (fun group => parsePageRange group (getPageCount original) = [])
                         (splitGroups pageRanges)
                  <-> Forall (fun group =>
                                parsePageRange (trim group) (getPageCount original) = [])
                             groups).
  { subst pageRanges. rewrite (splitGroups_join _ Hgroups), empty_groups_not_blank.
    rewrite Forall_map. reflexivity. }
  exists results. split; [exact Hsplit |]. split.
  - subst pageRanges.
    rewrite (splitGroups_join _ Hgroups), selected_groups_not_blank in Hall. exact Hall.
  - rewrite <- Hsame. split; assumption.
Qed.

Lemma validOrder_bounds (totalPages : Z) (newOrder : list Z) :
  Forall (fun i => 0 <= i < totalPages) (validOrder totalPages newOrder).
Proof.
  apply Forall_forall. intros x Hx. unfold validOrder in Hx.
  apply in_map_iff in Hx. destruct Hx as (n & <- & Hn).
  apply filter_In in Hn. destruct Hn as [_ Hn].
  rewrite andb_true_iff, !Z.leb_le in Hn. lia.
Qed.

(** The copies [reorderPdfPages] makes: the pages the entries of the order
    name, entry by entry. *)
Lemma copyPages_validOrder (src : PDFDocument Page) (newOrder : list Z) :
  copyPages src (map Some (validOrder (getPageCount src) newOrder))
  = Normal (pagesNumbered src newOrder).
Proof.
  unfold copyPages, validOrder, pagesNumbered.
  induction newOrder as [| n rest IH]; [reflexivity |].
  cbn [filter flat_map]. unfold pageNumbered at 1.
  destruct ((1 <=? n) && (n <=? getPageCount src)) eqn:E.
  - cbn [map traverse pageAt]. rewrite IH.
    apply andb_prop in E. destruct E as [E1 E2]. apply Z.leb_le in E1, E2.
    assert (Hneg : (n - 1 <? 0) = false) by (apply Z.ltb_ge; lia).
    rewrite Hneg.
    assert (Hlt : (Z.to_nat (n - 1) < length (docPages src))%nat)
      by (unfold getPageCount in E2; lia).
    apply nth_error_Some in Hlt.
    destruct (nth_error (docPages src) (Z.to_nat (n - 1))); [reflexivity | congruence].
  - exact IH.
Qed.

Lemma validOrder_empty (totalPages : Z) (newOrder : list Z) :
  validOrder totalPages newOrder = [] <->
  Forall (fun n => n < 1 \/ totalPages < n) newOrder.
Proof.
  unfold validOrder. induction newOrder as [| n rest IH]; cbn [filter].
  - split; constructor.
  - destruct ((1 <=? n) && (n <=? totalPages)) eqn:E.
    + apply andb_prop in E. destruct E as [E1 E2]. apply Z.leb_le in E1, E2.
      split; [discriminate |]. inversion 1; subst. lia.
    + rewrite IH. apply andb_false_iff in E. rewrite !Z.leb_gt in E.
      split; [intros H; constructor; [lia | assumption] | now inversion 1].
Qed.

(** C3.  [reorderPdfPages] goes through the page numbers of [newOrder] in
    the order given: a number in [1, totalPages] adds the original page of
    that number to the result, as often as it occurs, and a number outside
    adds nothing and is not fatal.  The document saved holds exactly these
    pages in this order (it is not sorted), and the call fails with
    InvalidPageOrder exactly when no number of [newOrder] lies in
    [1, totalPages]. *)
Theorem reorderPdfPages_keeps_order (pdfBuffer : Buffer) (original : PDFDocument Page)
  (newOrder : list Z) :
  load pdfBuffer = Some original ->
  (Exists (fun n => 1 <= n <= getPageCount original) newOrder ->
   reorderedDocument load pdfBuffer newOrder
   = Normal (mkDocument (pagesNumbered original newOrder))
   /\ reorderPdfPages load save pdfBuffer newOrder
      = Normal (save (mkDocument (pagesNumbered original newOrder))))
  /\ (reorderPdfPages load save pdfBuffer newOrder = Throw InvalidPageOrder <->
      Forall (fun n => n < 1 \/ getPageCount original < n) newOrder)
  /\ (forall n : Z, 1 <= n <= getPageCount original -> pageNumbered original n <> None).
Proof.
  intros Hload.
  assert (Hdoc : validOrder (getPageCount original) newOrder <> [] ->
                 reorderedDocument load pdfBuffer newOrder
                 = Normal (mkDocument (pagesNumbered original newOrder))).
  { intros Hne. unfold reorderedDocument, PDFDocument_load. rewrite Hload.
    cbn [bind]. cbv zeta. rewrite copyPages_validOrder.
    destruct (validOrder (getPageCount original) newOrder) as [| i l]; [congruence |].
    cbn [length Nat.eqb bind]. now rewrite addPages_create. }
  split; [| split].
  - intros Hsome.
    assert (Hne : validOrder (getPageCount original) newOrder <> []).
    { intros E. apply validOrder_empty in E. rewrite Forall_forall in E.
      apply Exists_exists in Hsome. destruct Hsome as (n & Hin & Hn).
      specialize (E n Hin). lia. }
    split; [now apply Hdoc |]. unfold reorderPdfPages. now rewrite (Hdoc Hne).
  - rewrite <- validOrder_empty. split.
    + intros Hthrow. destruct (validOrder (getPageCount original) newOrder) as [| i l] eqn:E;
        [reflexivity |]. exfalso.
      unfold reorderPdfPages in Hthrow. rewrite Hdoc in Hthrow by discriminate.
      discriminate.
    + intros Hnil. unfold reorderPdfPages, reorderedDocument, PDFDocument_load.
      rewrite Hload. cbn [bind]. cbv zeta. rewrite Hnil. reflexivity.
  - intros n Hn. unfold pageNumbered.
    assert (E : (1 <=? n) && (n <=? getPageCount original) = true)
      by (apply andb_true_iff; rewrite !Z.leb_le; lia).
    rewrite E. apply nth_error_Some. unfold getPageCount in Hn. lia.
Qed.

End PdfEngineFacts.

Lemma mergePdfs_concatenates_witness :
  mergePdfs PdfLib.load PdfLib.save [Some [1; 2]%nat; Some []; Some [3; 4; 5]%nat]
  = Normal (Some [1; 2; 3; 4; 5]%nat)
  /\ PdfLib.load (Some [1; 2; 3; 4; 5]%nat) = Some (mkDocument [1; 2; 3; 4; 5]%nat)
  /\ getPageCount (mkDocument [1; 2; 3; 4; 5]%nat) = 2 + (0 + (3 + 0))
  /\ mergePdfs PdfLib.load PdfLib.save [Some [1]%nat; None] = Throw MalformedDocument.
Proof.
  assert (Hcodec : forall pdf : PDFDocument PdfLib.Page,
             docPages pdf <> [] -> PdfLib.load (PdfLib.save pdf) = Some pdf).
  { intros [[| page rest]] H; [now contradiction H | reflexivity]. }
  destruct (mergePdfs_concatenates PdfLib.Page PdfLib.Buffer PdfLib.load PdfLib.save Hcodec)
    as [Hmerge Hfail].
  destruct (Hmerge [Some [1; 2]%nat; Some []; Some [3; 4; 5]%nat]
                   [mkDocument [1; 2]%nat; mkDocument []; mkDocument [3; 4; 5]%nat])
    as (_ & Hbytes & Hback).
  { repeat constructor. }
  destruct Hback as [Hload Hcount].
  { apply Exists_cons_hd. discriminate. }
  split; [exact Hbytes |]. split; [exact Hload |]. split; [exact Hcount |].
  apply Hfail. apply Exists_cons_tl, Exists_cons_hd. reflexivity.
Defined.

(** Merging no buffer at all, or buffers of documents without pages: the
    bytes returned hold one page, the blank page [save] adds to an empty
    document, where the inputs' page counts sum to 0, and that page is a
    page of no input. *)
Lemma mergePdfs_blank_page_counterexample :
  mergePdfs PdfLib.load PdfLib.save [] = Normal (Some [PdfLib.blankPage])
  /\ mergePdfs PdfLib.load PdfLib.save [Some []; Some []] = Normal (Some [PdfLib.blankPage])
  /\ Forall2 (fun b d => PdfLib.load b = Some d) [Some []; Some []]
             [mkDocument []; mkDocument []]
  /\ option_map getPageCount (PdfLib.load (Some [PdfLib.blankPage])) = Some 1
  /\ fold_right Z.add 0 (map getPageCount [mkDocument (Page := PdfLib.Page) [];
                                            mkDocument []]) = 0
  /\ ~ In PdfLib.blankPage
          (concat (map docPages [mkDocument (Page := PdfLib.Page) []; mkDocument []])).
Proof.
  split; [reflexivity |]. split; [reflexivity |]. split; [repeat constructor |].
  split; [reflexivity |]. split; [reflexivity |]. intros [].
Qed.

Lemma splitPdf_groups_witness :
  splitPdf Demo.load Demo.save Demo.fivePages
           (join semicolon [lit "5,1-2"; lit " 9 "; lit "4"])
  = Normal [mkSplitResult (Some [1; 2; 5]%nat) (lit "5,1-2") 3;
            mkSplitResult (Some [4]%nat) (lit "4") 1]
  /\ Forall2 (split_result_of Demo.save (mkDocument [1; 2; 3; 4; 5]%nat))
             (filter (selects_pages (mkDocument [1; 2; 3; 4; 5]%nat))
                     (map trim [lit "5,1-2"; lit " 9 "; lit "4"]))
             [mkSplitResult (Some [1; 2; 5]%nat) (lit "5,1-2") 3;
              mkSplitResult (Some [4]%nat) (lit "4") 1]
  /\ ~ Forall (fun group => parsePageRange (trim group) 5 = [])
               [lit "5,1-2"; lit " 9 "; lit "4"].
Proof.
  destruct (splitPdf_groups Demo.Page Demo.Buffer Demo.load Demo.save
              Demo.Buffer Demo.uploadToCloudinary Demo.byteLength
              Demo.fivePages (mkDocument [1; 2; 3; 4; 5]%nat)
              [lit "5,1-2"; lit " 9 "; lit "4"])
    as (results & Hsplit & Hall & Hempty & _).
  - reflexivity.
  - repeat constructor.
  - assert (Hrun : splitPdf Demo.load Demo.save Demo.fivePages
                     (join semicolon [lit "5,1-2"; lit " 9 "; lit "4"])
                   = Normal [mkSplitResult (Some [1; 2; 5]%nat) (lit "5,1-2") 3;
                             mkSplitResult (Some [4]%nat) (lit "4") 1])
      by (vm_compute; reflexivity).
    rewrite Hrun in Hsplit. injection Hsplit as <-.
    split; [exact Hrun |]. split; [exact Hall |].
    intros Hnone. apply Hempty in Hnone. discriminate.
Defined.

Example split_out_of_bounds_group :
  splitPdf Demo.load Demo.save Demo.fivePages (lit "99") = Normal []
  /\ Demo.server (Demo.request Demo.fivePages "99") = Status400 "No valid pages specified".
Proof. split; vm_compute; reflexivity. Qed.

Example split_in_document_order :
  splitPdf Demo.load Demo.save Demo.fivePages (lit "5,1-2; 9 ;4")
  = Normal [mkSplitResult (Some [1; 2; 5]%nat) (lit "5,1-2") 3;
            mkSplitResult (Some [4]%nat) (lit "4") 1].
Proof. vm_compute. reflexivity. Qed.

Lemma reorderPdfPages_keeps_order_witness :
  reorderedDocument Demo.load (Some [10; 20; 30; 40]%nat) [3; 9; 1; 3; 0; 4]
  = Normal (mkDocument [30; 10; 30; 40]%nat)
  /\ reorderPdfPages Demo.load Demo.save (Some [10; 20; 30; 40]%nat) [3; 9; 1; 3; 0; 4]
     = Normal (Some [30; 10; 30; 40]%nat).
Proof.
  apply (proj1 (reorderPdfPages_keeps_order Demo.Page Demo.Buffer Demo.load Demo.save
                  (Some [10; 20; 30; 40]%nat) (mkDocument [10; 20; 30; 40]%nat)
                  [3; 9; 1; 3; 0; 4] eq_refl)).
  apply Exists_cons_hd. unfold getPageCount. cbn [docPages length]. lia.
Defined.

Example reorder_caller_order :
  reorderPdfPages Demo.load Demo.save (Some [10; 20; 30; 40]%nat) [3; 1; 2; 4]
  = Normal (Some [30; 10; 20; 40]%nat)
  /\ reorderPdfPages Demo.load Demo.save (Some [10; 20; 30; 40]%nat) [2; 9; 2; 0; 1]
     = Normal (Some [20; 20; 10]%nat)
  /\ reorderPdfPages Demo.load Demo.save (Some [10; 20; 30; 40]%nat) [0; 5; 7]
     = Throw InvalidPageOrder.
Proof. repeat split; vm_compute; reflexivity. Qed.

(** ** Section 4.3 and 4.4: the retention sweeper *)

Module CleanupFacts.

Import Cleanup.

Lemma run_bindP {A B : Type} (p : Prog A) (f : A -> Prog B) (w : World) :
  run (bindP p f) w = run (f (fst (run p w))) (snd (run p w)).
Proof.
  revert w. induction p as [a | R e k IH]; intros w; simpl; [reflexivity |].
  destruct (perform e w) as [r w']. apply IH.
Qed.

Lemma run_bindT {A B : Type} (c : Task A) (f : A -> Task B) (w : World) :
  run (bindT c f) w =
  match fst (run c w) with
  | Normal a => run (f a) (snd (run c w))
  | Throw e => (Throw e, snd (run c w))
  end.
Proof.
  unfold bindT. rewrite run_bindP. destruct (fst (run c w)); reflexivity.
Qed.

Lemma run_tryCatch {A : Type} (body : Task A) (handler : JsError -> Task A) (w : World) :
  run (tryCatch body handler) w =
  match fst (run body w) with
  | Normal a => (Normal a, snd (run body w))
  | Throw e => run (handler e) (snd (run body w))
  end.
Proof.
  unfold tryCatch. rewrite run_bindP. destruct (fst (run body w)); reflexivity.
Qed.

Lemma run_call {R : Type} (e : Effect R) (w : World) :
  run (call e) w = (Normal (fst (perform e w)), snd (perform e w)).
Proof. unfold call. simpl. destruct (perform e w); reflexivity. Qed.

Lemma run_await {R : Type} (e : Effect (Completion R)) (w : World) :
  run (await e) w = perform e w.
Proof. unfold await. simpl. destruct (perform e w); reflexivity. Qed.

Lemma same_oracles_refl (w : World) : same_oracles w w.
Proof. repeat split. Qed.

Lemma same_oracles_trans (w1 w2 w3 : World) :
  same_oracles w1 w2 -> same_oracles w2 w3 -> same_oracles w1 w3.
Proof.
  unfold same_oracles. intros (A1 & B1 & C1) (A2 & B2 & C2).
  repeat split; congruence.
Qed.

Lemma perform_same_oracles {R : Type} (e : Effect R) (w : World) :
  same_oracles w (snd (perform e w)).
Proof.
  destruct e; simpl.
  - destruct (listing_error w resource_type); apply same_oracles_refl.
  - destruct (destroy_error w publicId); repeat split.
  - repeat split.
  - repeat split.
Qed.

Lemma deletion_succeeds_ext (w w' : World) (r : Resource) :
  destroy_error w' = destroy_error w -> deletion_succeeds w' r = deletion_succeeds w r.
Proof. unfold deletion_succeeds. now intros ->. Qed.

Lemma deletion_line_ext (w w' : World) (rt : ResourceType) (r : Resource) :
  destroy_error w' = destroy_error w -> deletion_line w' rt r = deletion_line w rt r.
Proof. unfold deletion_line. now intros ->. Qed.

Lemma survivors_ext (w w' : World) (expired l : list Resource) :
  destroy_error w' = destroy_error w -> survivors w' expired l = survivors w expired l.
Proof.
  intros H. unfold survivors. apply filter_ext. intros x. f_equal.
  induction expired as [| y ys IH]; simpl; [reflexivity |].
  now rewrite IH, (deletion_succeeds_ext w w' y H).
Qed.

Lemma filter_filter {A : Type} (f g : A -> bool) (l : list A) :
  filter f (filter g l) = filter (fun x => g x && f x) l.
Proof.
  induction l as [| a l IH]; simpl; [reflexivity |].
  destruct (g a); simpl; [destruct (f a) |]; now rewrite IH.
Qed.

Lemma survivors_cons (w : World) (r : Resource) (rest l : list Resource) :
  survivors w (r :: rest) l =
  survivors w rest (if deletion_succeeds w r then without (public_id r) l else l).
Proof.
  unfold survivors, without. simpl. destruct (deletion_succeeds w r).
  - rewrite filter_filter. apply filter_ext. intros x.
    now rewrite andb_true_r, negb_orb.
  - apply filter_ext. intros x. now rewrite andb_false_r.
Qed.

(** The loop over the expired objects: every one of them is sent to the
    provider, whatever happened to the ones before it. *)
Lemma deleteLoop_run (rt : ResourceType) (expired : list Resource) (n : Z) (w : World) :
  exists w',
    run (deleteLoop rt expired n) w =
      (Normal (n + Z.of_nat (length (filter (deletion_succeeds w) expired))), w')
    /\ destroy_calls w' = destroy_calls w ++ map (fun r => (public_id r, rt)) expired
    /\ console w' = console w ++ map (deletion_line w rt) expired
    /\ (forall k, stored w' k = if ResourceType_eqb k rt
                                then survivors w expired (stored w k) else stored w k)
    /\ same_oracles w w' /\ clock_reads w' = clock_reads w.
Proof.
  revert n w. induction expired as [| r rest IH]; intros n w.
  - exists w. simpl. rewrite Z.add_0_r, !app_nil_r.
    repeat split. intros k. unfold survivors. simpl.
    destruct (ResourceType_eqb k rt); [| reflexivity].
    induction (stored w k) as [| a l IHl]; simpl; [reflexivity | now rewrite <- IHl].
  - cbn [deleteLoop]. rewrite run_bindT, run_tryCatch. simpl.
    assert (Hsucc : deletion_succeeds w r =
                    match destroy_error w (public_id r) with None => true | Some _ => false end)
      by reflexivity.
    assert (Hline : deletion_line w rt r =
                    match destroy_error w (public_id r) with
                    | None => LogDeleted rt (public_id r)
                    | Some message => ErrFailedToDelete (public_id r) message end)
      by reflexivity.
    destruct (destroy_error w (public_id r)) as [msg |] eqn:E; simpl;
      match goal with |- context [run (deleteLoop rt rest ?m) ?w1] =>
        destruct (IH m w1) as (w' & Hrun & Hcalls & Hconsole & Hstored & Horacles & Hreads);
        change (deletion_succeeds w1) with (deletion_succeeds w) in Hrun;
        change (deletion_line w1 rt) with (deletion_line w rt) in Hconsole;
        change (survivors w1 rest) with (survivors w rest) in Hstored
      end;
      exists w'; destruct Horacles as (Hl & Hd & Hc);
      simpl in Hcalls, Hconsole, Hstored, Hreads, Hl, Hd, Hc;
      rewrite Hrun, Hcalls, Hconsole, <- !app_assoc, Hsucc, Hline; simpl.
    + repeat split; try assumption.
      intros k. rewrite Hstored, survivors_cons, Hsucc. reflexivity.
    + repeat split; try assumption.
      * do 2 f_equal. rewrite Zpos_P_of_succ_nat. lia.
      * intros k. rewrite Hstored, survivors_cons, Hsucc.
        destruct (ResourceType_eqb k rt); reflexivity.
Qed.
Lemma isExpired_run (ttl : Z) (createdAt : JsNumber) (w : World) :
  run (isExpired ttl createdAt) w =
  (Normal (olderThan (clock w (clock_reads w)) createdAt (ttl * 60 * 60 * 1000)),
   mkWorld (stored w) (listing_error w) (destroy_error w) (clock w)
           (S (clock_reads w)) (console w) (destroy_calls w)).
Proof. reflexivity. Qed.

(** The filter checks the listed objects in order, each at its own reading
    of the clock. *)
Lemma filterT_isExpired_run (ttl : Z) (listed : list Resource) (w : World) :
  run (filterT (fun r => isExpired ttl (created_at r)) listed) w =
  (Normal (expired_from ttl (clock w) (clock_reads w) listed),
   mkWorld (stored w) (listing_error w) (destroy_error w) (clock w)
           (length listed + clock_reads w) (console w) (destroy_calls w)).
Proof.
  revert w. induction listed as [| r rest IH]; intros w.
  - destruct w; reflexivity.
  - cbn [filterT]. rewrite run_bindT, isExpired_run. cbn [fst snd].
    rewrite run_bindT, IH. cbn [fst snd expired_from clock clock_reads stored
      listing_error destroy_error console destroy_calls length].
    rewrite Nat.add_succ_r. cbn [Nat.add].
    destruct (olderThan (clock w (clock_reads w)) (created_at r) (ttl * 60 * 60 * 1000));
      reflexivity.
Qed.

Lemma getResourcesByTag_run (tag : string) (rt : ResourceType) (w : World) :
  run (getResourcesByTag tag rt) w =
  match listing_error w rt with
  | Some message => (Throw (UpstreamError message), w)
  | None => (Normal (listByTag w tag 500 rt None), w)
  end.
Proof. unfold getResourcesByTag. rewrite run_await. reflexivity. Qed.

(** The page a listing of the sweeper holds: the first 500 tagged objects. *)
Lemma listByTag_first_page (w : World) (tag : string) (rt : ResourceType) :
  resources (listByTag w tag 500 rt None) = Some (firstn 500 (allTagged w tag rt)).
Proof. reflexivity. Qed.

(** A kind whose listing is rejected: the failure is written, nothing is
    deleted, and the count is 0. *)
Lemma cleanupResourceType_listing_fails (ttl : Z) (rt : ResourceType) (w : World)
  (message : string) :
  listing_error w rt = Some message ->
  run (cleanupResourceType ttl rt) w =
  (Normal 0,
   mkWorld (stored w) (listing_error w) (destroy_error w) (clock w) (clock_reads w)
           (console w ++ [ErrFetching rt message]) (destroy_calls w)).
Proof.
  intros H. unfold cleanupResourceType.
  rewrite run_tryCatch, run_bindT, getResourcesByTag_run, H. reflexivity.
Qed.

(** A kind whose listing is accepted. *)
Lemma cleanupResourceType_run (ttl : Z) (rt : ResourceType) (w : World) :
  listing_error w rt = None ->
  let listed := firstn 500 (allTagged w "temp_upload" rt) in
  let expired := expired_from ttl (clock w) (clock_reads w) listed in
  exists w',
    run (cleanupResourceType ttl rt) w =
      (Normal (Z.of_nat (length (filter (deletion_succeeds w) expired))), w')
    /\ destroy_calls w' = destroy_calls w ++ map (fun r => (public_id r, rt)) expired
    /\ console w' = console w ++ map (deletion_line w rt) expired
    /\ (forall k, stored w' k = if ResourceType_eqb k rt
                                then survivors w expired (stored w k) else stored w k)
    /\ same_oracles w w'
    /\ clock_reads w' = (length listed + clock_reads w)%nat.
Proof.
  intros H listed expired. unfold cleanupResourceType.
  rewrite run_tryCatch, run_bindT, getResourcesByTag_run, H. cbn [fst snd].
  rewrite listByTag_first_page. fold listed.
  destruct listed as [| r rest] eqn:El.
  - exists w. subst expired. simpl. rewrite !app_nil_r. repeat split.
    intros k. destruct (ResourceType_eqb k rt); [| reflexivity].
    unfold survivors. simpl. induction (stored w k) as [| a l IHl]; simpl;
      [reflexivity | now rewrite <- IHl].
  - rewrite run_bindT, filterT_isExpired_run. cbn [fst snd].
    fold expired.
    match goal with |- context [run (deleteLoop rt expired 0) ?w1] =>
      destruct (deleteLoop_run rt expired 0 w1)
        as (w' & Hrun & Hcalls & Hconsole & Hstored & Horacles & Hreads);
      change (deletion_succeeds w1) with (deletion_succeeds w) in Hrun;
      change (deletion_line w1 rt) with (deletion_line w rt) in Hconsole;
      change (survivors w1 expired) with (survivors w expired) in Hstored
    end.
    exists w'. rewrite Hrun. cbn [fst snd]. repeat split; try assumption;
      try (destruct Horacles as (Hl & Hd & Hc); assumption).
Qed.
(** Whatever the provider does, a pass over one kind returns a count. *)
Lemma cleanupResourceType_returns (ttl : Z) (rt : ResourceType) (w : World) :
  exists n w', run (cleanupResourceType ttl rt) w = (Normal n, w') /\ same_oracles w w'.
Proof.
  destruct (listing_error w rt) as [message |] eqn:E.
  - rewrite (cleanupResourceType_listing_fails ttl rt w message E).
    eexists. eexists. split; [reflexivity |]. repeat split.
  - destruct (cleanupResourceType_run ttl rt w E) as (w' & Hrun & _ & _ & _ & Ho & _).
    eexists. exists w'. split; [exact Hrun | exact Ho].
Qed.

(** A sweep is the pass over the images, then the pass over the raw files
    on the world the first pass left, then the report. *)
Lemma cleanupExpiredFiles_run (ttl : Z) (w wi wr : World) (imagesDeleted rawDeleted : Z) :
  run (cleanupResourceType ttl image) (sweepStarted w) = (Normal imagesDeleted, wi) ->
  run (cleanupResourceType ttl raw) wi = (Normal rawDeleted, wr) ->
  run (cleanupExpiredFiles ttl) w =
  (Normal tt,
   mkWorld (stored wr) (listing_error wr) (destroy_error wr) (clock wr)
           (S (clock_reads wr))
           (console wr ++ [LogCompleted (clock wr (clock_reads wr) - clock w (clock_reads w))
                                        (imagesDeleted + rawDeleted)
                                        imagesDeleted rawDeleted])
           (destroy_calls wr)).
Proof.
  intros Hi Hr. unfold cleanupExpiredFiles.
  rewrite run_bindT, run_call. cbn [fst snd].
  rewrite run_bindT, run_call. cbn [fst snd].
  rewrite run_tryCatch, run_bindT.
  change (snd (perform DateNow (snd (perform (Console LogStarting) w))))
    with (sweepStarted w).
  rewrite Hi. cbn [fst snd]. rewrite run_bindT, Hr. cbn [fst snd].
  rewrite run_bindT, run_call. cbn [fst snd]. rewrite run_call. reflexivity.
Qed.
Lemma survivors_none (w : World) (l : list Resource) : survivors w [] l = l.
Proof.
  unfold survivors. simpl. induction l as [| a l IH]; simpl; [reflexivity | now rewrite IH].
Qed.

(** A sweep both of whose listings are accepted, as a function of the
    world: the expired objects of the first page of each kind are found at
    successive readings of the clock and sent to the provider, images
    first. *)
Lemma sweep_run (ttl : Z) (w : World) :
  listing_error w image = None -> listing_error w raw = None ->
  let listedImages := firstn 500 (allTagged w "temp_upload" image) in
  let listedRaw := firstn 500 (allTagged w "temp_upload" raw) in
  let expiredImages := expired_from ttl (clock w) (S (clock_reads w)) listedImages in
  let expiredRaw :=
    expired_from ttl (clock w) (length listedImages + S (clock_reads w)) listedRaw in
  let imagesDeleted := Z.of_nat (length (filter (deletion_succeeds w) expiredImages)) in
  let rawDeleted := Z.of_nat (length (filter (deletion_succeeds w) expiredRaw)) in
  exists w' elapsed,
    run (cleanupExpiredFiles ttl) w = (Normal tt, w')
    /\ destroy_calls w' =
       destroy_calls w ++ map (fun r => (public_id r, image)) expiredImages
                       ++ map (fun r => (public_id r, raw)) expiredRaw
    /\ stored w' image = survivors w expiredImages (stored w image)
    /\ stored w' raw = survivors w expiredRaw (stored w raw)
    /\ console w' =
       console w ++ [LogStarting] ++ map (deletion_line w image) expiredImages
                 ++ map (deletion_line w raw) expiredRaw
                 ++ [LogCompleted elapsed (imagesDeleted + rawDeleted)
                                  imagesDeleted rawDeleted].
Proof.
  intros Hli Hlr listedImages listedRaw expiredImages expiredRaw imagesDeleted rawDeleted.
  destruct (cleanupResourceType_run ttl image (sweepStarted w) Hli)
    as (wi & Hi & Hci & Hoi & Hsi & (Hli' & Hdi & Hki) & Hri).
  change (allTagged (sweepStarted w) "temp_upload" image)
    with (allTagged w "temp_upload" image) in Hi, Hci, Hoi, Hsi, Hri.
  change (clock (sweepStarted w)) with (clock w) in Hi, Hci, Hoi, Hsi, Hki.
  change (clock_reads (sweepStarted w)) with (S (clock_reads w)) in Hi, Hci, Hoi, Hsi, Hri.
  change (deletion_succeeds (sweepStarted w)) with (deletion_succeeds w) in Hi.
  change (deletion_line (sweepStarted w)) with (deletion_line w) in Hoi.
  change (survivors (sweepStarted w)) with (survivors w) in Hsi.
  change (destroy_calls (sweepStarted w)) with (destroy_calls w) in Hci.
  change (console (sweepStarted w)) with (console w ++ [LogStarting]) in Hoi.
  change (listing_error (sweepStarted w)) with (listing_error w) in Hli'.
  change (destroy_error (sweepStarted w)) with (destroy_error w) in Hdi.
  fold listedImages in Hi, Hci, Hoi, Hsi, Hri. fold expiredImages in Hi, Hci, Hoi, Hsi.
  fold imagesDeleted in Hi.
  assert (Hlr' : listing_error wi raw = None) by (rewrite Hli'; exact Hlr).
  destruct (cleanupResourceType_run ttl raw wi Hlr')
    as (wr & Hr & Hcr & Hor & Hsr & (_ & Hdr & Hkr) & Hrr).
  assert (Htag : allTagged wi "temp_upload" raw = allTagged w "temp_upload" raw).
  { unfold allTagged. now rewrite (Hsi raw). }
  rewrite Htag, Hki, Hri in Hr, Hcr, Hor, Hsr. fold listedRaw in Hr, Hcr, Hor, Hsr.
  fold expiredRaw in Hr, Hcr, Hor, Hsr.
  rewrite (filter_ext _ _ (fun x => deletion_succeeds_ext w wi x Hdi)) in Hr.
  rewrite (map_ext _ _ (fun x => deletion_line_ext w wi raw x Hdi)) in Hor.
  fold rawDeleted in Hr.
  eexists. eexists.
  split; [apply (cleanupExpiredFiles_run ttl w wi wr _ _ Hi Hr) |].
  cbn [destroy_calls stored console]. repeat split.
  - rewrite Hcr, Hci. now rewrite app_assoc.
  - rewrite (Hsr image), (Hsi image). reflexivity.
  - rewrite (Hsr raw), (survivors_ext w wi _ _ Hdi), (Hsi raw). reflexivity.
  - rewrite Hor, Hoi, <- !app_assoc. reflexivity.
Qed.

(** A pass over one kind, whatever the provider answers to the listing. *)
Lemma cleanupResourceType_any (ttl : Z) (rt : ResourceType) (w : World) :
  let expired := expired_from ttl (clock w) (clock_reads w) (listedPage w rt) in
  exists w',
    run (cleanupResourceType ttl rt) w =
      (Normal (Z.of_nat (length (filter (deletion_succeeds w) expired))), w')
    /\ destroy_calls w' = destroy_calls w ++ map (fun r => (public_id r, rt)) expired
    /\ console w' = console w ++ listing_lines w rt ++ map (deletion_line w rt) expired
    /\ (forall k, stored w' k = if ResourceType_eqb k rt
                                then survivors w expired (stored w k) else stored w k)
    /\ same_oracles w w'
    /\ clock_reads w' = (length (listedPage w rt) + clock_reads w)%nat.
Proof.
  unfold listedPage, listing_lines.
  destruct (listing_error w rt) as [message |] eqn:E.
  - rewrite (cleanupResourceType_listing_fails ttl rt w message E).
    eexists. split; [reflexivity |].
    cbn [destroy_calls console stored clock_reads expired_from map length filter app Nat.add].
    rewrite app_nil_r. repeat split.
    intros k. rewrite survivors_none. now destruct (ResourceType_eqb k rt).
  - destruct (cleanupResourceType_run ttl rt w E)
      as (w' & Hrun & Hcalls & Hconsole & Hstored & Ho & Hreads).
    exists w'. repeat split; try assumption; apply Ho.
Qed.

Lemma deleted_not_survivor (w : World) (expired l : list Resource) (r : Resource) :
  In r expired -> deletion_succeeds w r = true -> ~ In r (survivors w expired l).
Proof.
  intros Hin Hok Hs. unfold survivors in Hs. apply filter_In in Hs.
  destruct Hs as [_ Hs]. apply negb_true_iff in Hs.
  assert (Hex : existsb (fun x => String.eqb (public_id x) (public_id r)
                                  && deletion_succeeds w x) expired = true).
  { apply existsb_exists. exists r. split; [assumption |].
    now rewrite String.eqb_refl, Hok. }
  congruence.
Qed.

(** C6.  Every sweep, whatever the provider answers, returns normally,
    having visited the images and then the raw files.  For each kind it
    works on the expired objects of the listing, which are none when the
    listing is rejected (the rejection is written to the console and the
    kind counts 0, and the other kind is processed all the same); every
    one of these objects is sent to the provider for deletion, in order,
    also after a deletion that failed; a failed deletion leaves its line
    on the console, and every object whose own deletion the provider
    accepts is gone from the store and counted in the report. *)
Theorem sweep_tolerates_failures (ttl : Z) (w : World) :
  let expiredImages :=
    expired_from ttl (clock w) (S (clock_reads w)) (listedPage w image) in
  let expiredRaw :=
    expired_from ttl (clock w) (length (listedPage w image) + S (clock_reads w))
                 (listedPage w raw) in
  let imagesDeleted := Z.of_nat (length (filter (deletion_succeeds w) expiredImages)) in
  let rawDeleted := Z.of_nat (length (filter (deletion_succeeds w) expiredRaw)) in
  exists w' elapsed,
    run (cleanupExpiredFiles ttl) w = (Normal tt, w')
    /\ destroy_calls w' =
       destroy_calls w ++ map (fun r => (public_id r, image)) expiredImages
                       ++ map (fun r => (public_id r, raw)) expiredRaw
    /\ console w' =
       console w ++ [LogStarting]
                 ++ listing_lines w image ++ map (deletion_line w image) expiredImages
                 ++ listing_lines w raw ++ map (deletion_line w raw) expiredRaw
                 ++ [LogCompleted elapsed (imagesDeleted + rawDeleted)
                                  imagesDeleted rawDeleted]
    /\ stored w' image = survivors w expiredImages (stored w image)
    /\ stored w' raw = survivors w expiredRaw (stored w raw)
    /\ (forall r, In r expiredImages -> deletion_succeeds w r = true ->
                  ~ In r (stored w' image))
    /\ (forall r, In r expiredRaw -> deletion_succeeds w r = true ->
                  ~ In r (stored w' raw)).
Proof.
  intros expiredImages expiredRaw imagesDeleted rawDeleted.
  destruct (cleanupResourceType_any ttl image (sweepStarted w))
    as (wi & Hi & Hci & Hoi & Hsi & (Hli & Hdi & Hki) & Hri).
  change (listedPage (sweepStarted w) image) with (listedPage w image) in Hi, Hci, Hoi, Hsi, Hri.
  change (listing_lines (sweepStarted w) image) with (listing_lines w image) in Hoi.
  change (clock (sweepStarted w)) with (clock w) in Hi, Hci, Hoi, Hsi, Hki.
  change (clock_reads (sweepStarted w)) with (S (clock_reads w)) in Hi, Hci, Hoi, Hsi, Hri.
  change (deletion_succeeds (sweepStarted w)) with (deletion_succeeds w) in Hi.
  change (deletion_line (sweepStarted w)) with (deletion_line w) in Hoi.
  change (survivors (sweepStarted w)) with (survivors w) in Hsi.
  change (destroy_calls (sweepStarted w)) with (destroy_calls w) in Hci.
  change (console (sweepStarted w)) with (console w ++ [LogStarting]) in Hoi.
  change (listing_error (sweepStarted w)) with (listing_error w) in Hli.
  change (destroy_error (sweepStarted w)) with (destroy_error w) in Hdi.
  fold expiredImages in Hi, Hci, Hoi, Hsi. fold imagesDeleted in Hi.
  destruct (cleanupResourceType_any ttl raw wi)
    as (wr & Hr & Hcr & Hor & Hsr & _ & _).
  assert (Hpage : listedPage wi raw = listedPage w raw).
  { unfold listedPage, allTagged. rewrite Hli, (Hsi raw). reflexivity. }
  assert (Hlines : listing_lines wi raw = listing_lines w raw).
  { unfold listing_lines. now rewrite Hli. }
  rewrite Hpage, Hki, Hri in Hr, Hcr, Hor, Hsr. rewrite Hlines in Hor.
  fold expiredRaw in Hr, Hcr, Hor, Hsr.
  rewrite (filter_ext _ _ (fun x => deletion_succeeds_ext w wi x Hdi)) in Hr.
  rewrite (map_ext _ _ (fun x => deletion_line_ext w wi raw x Hdi)) in Hor.
  fold rawDeleted in Hr.
  assert (Himage : stored wr image = survivors w expiredImages (stored w image)).
  { rewrite (Hsr image), (Hsi image). reflexivity. }
  assert (Hraw : stored wr raw = survivors w expiredRaw (stored w raw)).
  { rewrite (Hsr raw), (survivors_ext w wi _ _ Hdi), (Hsi raw). reflexivity. }
  eexists. eexists.
  split; [apply (cleanupExpiredFiles_run ttl w wi wr _ _ Hi Hr) |].
  cbn [destroy_calls stored console].
  split; [rewrite Hcr, Hci; now rewrite app_assoc |].
  split; [rewrite Hor, Hoi, <- !app_assoc; reflexivity |].
  split; [exact Himage |]. split; [exact Hraw |]. split.
  - intros r Hin Hok. rewrite Himage. now apply deleted_not_survivor.
  - intros r Hin Hok. rewrite Hraw. now apply deleted_not_survivor.
Qed.

End CleanupFacts.

Module SweepExampleFacts.

Import Cleanup SweepExample.

Example failing_sweep :
  let w' := snd (run (cleanupExpiredFiles 1) failing) in
  fst (run (cleanupExpiredFiles 1) failing) = Normal tt
  /\ console w' = [LogStarting; ErrFetching image "timeout";
                   ErrFailedToDelete "old" "denied"; LogDeleted raw "stale";
                   LogCompleted 3 1 0 1]
  /\ destroy_calls w' = [("old"%string, raw); ("stale"%string, raw)]
  /\ stored w' raw = [old] /\ stored w' image = [new].
Proof. vm_compute. repeat split. Qed.

End SweepExampleFacts.

(** The provider rejects the listing of the images and the deletion of
    [old]: the raw files are processed all the same, [stale] is sent for
    deletion after the failure on [old] and is gone, and the sweep returns. *)
Lemma sweep_tolerates_failures_witness :
  exists w' elapsed,
    Cleanup.run (Cleanup.cleanupExpiredFiles 1) SweepExample.failing = (Normal tt, w')
    /\ Cleanup.destroy_calls w' = [("old"%string, Cleanup.raw); ("stale"%string, Cleanup.raw)]
    /\ Cleanup.console w' =
       [Cleanup.LogStarting; Cleanup.ErrFetching Cleanup.image "timeout";
        Cleanup.ErrFailedToDelete "old" "denied"; Cleanup.LogDeleted Cleanup.raw "stale";
        Cleanup.LogCompleted elapsed 1 0 1]
    /\ ~ In SweepExample.stale (Cleanup.stored w' Cleanup.raw).
Proof.
  destruct (CleanupFacts.sweep_tolerates_failures 1 SweepExample.failing)
    as (w' & elapsed & Hrun & Hcalls & Hconsole & _ & _ & _ & Hgone).
  exists w', elapsed.
  split; [exact Hrun |]. split; [exact Hcalls |]. split; [exact Hconsole |].
  apply Hgone; [right; left |]; reflexivity.
Defined.

Module SweepFacts.

Import Cleanup CleanupFacts.

Section TwoObjects.

Variable ttl : Z.
Variable w : World.
Variables older newer : Resource.

Hypothesis Htag_older : has_tag "temp_upload" older = true.
Hypothesis Htag_newer : has_tag "temp_upload" newer = true.
Hypothesis Hdistinct : public_id older <> public_id newer.
Hypothesis Haccepted : destroy_error w (public_id older) = None.
Hypothesis Hexpired :
  forall n, (clock_reads w < n <= clock_reads w + 2)%nat ->
            olderThan (clock w n) (created_at older) (ttl * 60 * 60 * 1000) = true.
Hypothesis Hfresh :
  forall n, (clock_reads w < n <= clock_reads w + 2)%nat ->
            olderThan (clock w n) (created_at newer) (ttl * 60 * 60 * 1000) = false.

Variable l : list Resource.
Hypothesis Hl : l = [older; newer] \/ l = [newer; older].

Lemma two_objects_listed : firstn 500 (filter (has_tag "temp_upload") l) = l.
Proof.
  destruct Hl as [-> | ->]; cbn [filter]; rewrite Htag_older, Htag_newer; reflexivity.
Qed.

Lemma two_objects_expired :
  expired_from ttl (clock w) (S (clock_reads w)) l = [older].
Proof.
  destruct Hl as [-> | ->]; cbn [expired_from];
    rewrite !Hexpired, !Hfresh by lia; reflexivity.
Qed.

Lemma two_objects_survivors : survivors w [older] l = [newer].
Proof.
  assert (Hs : deletion_succeeds w older = true)
    by (unfold deletion_succeeds; now rewrite Haccepted).
  assert (Hne : String.eqb (public_id older) (public_id newer) = false)
    by now apply String.eqb_neq.
  unfold survivors.
  destruct Hl as [-> | ->]; cbn [filter existsb];
    rewrite Hs, Hne, String.eqb_refl; reflexivity.
Qed.

End TwoObjects.

(** C9, as the code has it.  A sweep over two tagged objects of one kind,
    one older than the TTL at the readings of the clock the sweep takes
    and one not, with a provider that accepts the calls: the sweep requests
    exactly one deletion, that of the older object, the newer object stays
    in the store, and the report of the sweep counts one deleted file, of
    that kind.  The report carries the elapsed time and the deleted counts
    only. *)
Theorem sweep_deletes_the_older (ttl : Z) (kind : ResourceType)
  (older newer : Resource) (w : World) :
  (stored w kind = [older; newer] \/ stored w kind = [newer; older]) ->
  stored w (other kind) = [] ->
  has_tag "temp_upload" older = true ->
  has_tag "temp_upload" newer = true ->
  public_id older <> public_id newer ->
  listing_error w image = None ->
  listing_error w raw = None ->
  destroy_error w (public_id older) = None ->
  (forall n, (clock_reads w < n <= clock_reads w + 2)%nat ->
             olderThan (clock w n) (created_at older) (ttl * 60 * 60 * 1000) = true) ->
  (forall n, (clock_reads w < n <= clock_reads w + 2)%nat ->
             olderThan (clock w n) (created_at newer) (ttl * 60 * 60 * 1000) = false) ->
  exists w' elapsed,
    run (cleanupExpiredFiles ttl) w = (Normal tt, w')
    /\ destroy_calls w' = destroy_calls w ++ [(public_id older, kind)]
    /\ attempted w' = attempted w + 1
    /\ stored w' kind = [newer]
    /\ stored w' (other kind) = []
    /\ report w' =
       Some (LogCompleted elapsed 1
               (match kind with image => 1 | raw => 0 end)
               (match kind with image => 0 | raw => 1 end)).
Proof.
  intros Hstored Hother Hto Htn Hd Hli Hlr Hacc Hexp Hfresh.
  destruct (sweep_run ttl w Hli Hlr) as (w' & elapsed & Hrun & Hcalls & Hsi & Hsr & Hcons).
  pose proof (two_objects_listed older newer Hto Htn (stored w kind) Hstored) as Hlisted.
  pose proof (two_objects_expired ttl w older newer Hexp Hfresh (stored w kind) Hstored)
    as Hexpired.
  pose proof (two_objects_survivors w older newer Hd Hacc (stored w kind) Hstored) as Hsurv.
  assert (Hs : deletion_succeeds w older = true)
    by (unfold deletion_succeeds; now rewrite Hacc).
  assert (Hline : forall rt, deletion_line w rt older = LogDeleted rt (public_id older))
    by (intros rt; unfold deletion_line; now rewrite Hacc).
  exists w', elapsed. split; [exact Hrun |].
  unfold allTagged in Hcalls, Hsi, Hsr, Hcons.
  destruct kind; simpl other in *; rewrite Hother in *; rewrite Hlisted in *;
    cbn [filter firstn length expired_from Nat.add map app] in Hcalls, Hsi, Hsr, Hcons;
    rewrite Hexpired in *;
    cbn [filter length map app] in Hcalls, Hsi, Hsr, Hcons;
    rewrite ?Hs, ?Hline, ?Hsurv, ?survivors_none in *;
    cbn [filter length map app Z.of_nat] in Hcalls, Hsi, Hsr, Hcons.
  all: repeat split; try assumption.
  all: try (unfold attempted; rewrite Hcalls, length_app; simpl; lia).
  all: unfold report; rewrite Hcons, rev_app_distr; reflexivity.
Qed.

(** The sweep of the example: one deletion is requested, and the report
    counts one deleted file; nothing in it says 2. *)
Lemma sweep_report_has_no_attempted_count :
  let w' := snd (run (cleanupExpiredFiles 1) SweepExample.twoImages) in
  stored w' image = [SweepExample.new]
  /\ destroy_calls w' = [("old"%string, image)]
  /\ console w' = [LogStarting; LogDeleted image "old"; LogCompleted 3 1 1 0]
  /\ report w' = Some (LogCompleted 3 1 1 0)
  /\ attempted w' = 1
  /\ attempted w' <> 2.
Proof. vm_compute. repeat split; discriminate. Qed.

Lemma sweep_deletes_the_older_witness :
  exists w' elapsed,
    run (cleanupExpiredFiles 1) SweepExample.twoImages = (Normal tt, w')
    /\ destroy_calls w' = destroy_calls SweepExample.twoImages ++ [("old"%string, image)]
    /\ attempted w' = attempted SweepExample.twoImages + 1
    /\ stored w' image = [SweepExample.new]
    /\ stored w' (other image) = []
    /\ report w' = Some (LogCompleted elapsed 1 1 0).
Proof.
  apply (sweep_deletes_the_older 1 image SweepExample.old SweepExample.new
           SweepExample.twoImages).
  - left. reflexivity.
  - reflexivity.
  - reflexivity.
  - reflexivity.
  - discriminate.
  - reflexivity.
  - reflexivity.
  - reflexivity.
  - intros n Hn.
    cbv [olderThan SweepExample.old SweepExample.twoImages created_at clock clock_reads] in *.
    apply Z.ltb_lt. lia.
  - intros n Hn.
    cbv [olderThan SweepExample.new SweepExample.twoImages created_at clock clock_reads] in *.
    apply Z.ltb_ge. lia.
Defined.

(** C8, as the code has it.  The scanner sends one request with the
    provider's cap of 500 as [max_results] and no cursor, and returns what
    the provider answers: the first page, that is the first 500 tagged
    objects of the kind.  Nothing follows the cursor the provider returns
    when more objects are tagged, and a pass of the sweep checks and deletes
    objects of that first page only. *)
Theorem getResourcesByTag_first_page (tag : string) (rt : ResourceType) (w : World) :
  listing_error w rt = None ->
  (exists listing,
      run (getResourcesByTag tag rt) w = (Normal listing, w)
      /\ resources listing = Some (firstn 500 (allTagged w tag rt))
      /\ (next_cursor listing = None <-> (length (allTagged w tag rt) <= 500)%nat))
  /\ (forall ttl : Z,
         exists n w',
           run (cleanupResourceType ttl rt) w = (Normal n, w')
           /\ destroy_calls w' =
              destroy_calls w ++
              map (fun r => (public_id r, rt))
                  (expired_from ttl (clock w) (clock_reads w)
                     (firstn 500 (allTagged w "temp_upload" rt)))).
Proof.
  intros H. split.
  - exists (listByTag w tag 500 rt None).
    rewrite getResourcesByTag_run, H. split; [reflexivity |].
    split; [apply listByTag_first_page |].
    unfold listByTag.
    change (Z.to_nat (Z.min 500 PROVIDER_MAX_RESULTS)) with 500%nat.
    change (skipn 0 (filter (has_tag tag) (stored w rt))) with (allTagged w tag rt).
    cbv [next_cursor].
    destruct (500 <? length (allTagged w tag rt))%nat eqn:E.
    + apply Nat.ltb_lt in E. split; [discriminate | intros; lia].
    + apply Nat.ltb_ge in E. split; [intros _; exact E | reflexivity].
  - intros ttl.
    destruct (cleanupResourceType_run ttl rt w H) as (w' & Hrun & Hcalls & _).
    eexists. exists w'. split; [exact Hrun | exact Hcalls].
Qed.

Lemma getResourcesByTag_first_page_witness :
  (exists listing,
      run (getResourcesByTag "temp_upload" image) SweepExample.twoImages
        = (Normal listing, SweepExample.twoImages)
      /\ resources listing =
         Some (firstn 500 (allTagged SweepExample.twoImages "temp_upload" image))
      /\ (next_cursor listing = None <->
          (length (allTagged SweepExample.twoImages "temp_upload" image) <= 500)%nat))
  /\ (forall ttl : Z,
         exists n w',
           run (cleanupResourceType ttl image) SweepExample.twoImages = (Normal n, w')
           /\ destroy_calls w' =
              destroy_calls SweepExample.twoImages ++
              map (fun r => (public_id r, image))
                  (expired_from ttl (clock SweepExample.twoImages)
                     (clock_reads SweepExample.twoImages)
                     (firstn 500 (allTagged SweepExample.twoImages "temp_upload" image)))).
Proof.
  apply (getResourcesByTag_first_page "temp_upload" image SweepExample.twoImages).
  reflexivity.
Defined.

(** With 501 tagged images the scanner returns 500 of them and a cursor:
    [img500] is tagged and is not in the sequence the caller gets, and the
    sweep leaves it in the store although it is as old as the others. *)
Lemma listing_is_one_page_counterexample :
  let tagged := allTagged SweepExample.manyImages "temp_upload" image in
  length tagged = 501%nat
  /\ named_in "img500" tagged = true
  /\ match fst (run (getResourcesByTag "temp_upload" image) SweepExample.manyImages) with
     | Normal listing =>
         next_cursor listing = Some 500%nat
         /\ match resources listing with
            | Some page => length page = 500%nat /\ named_in "img500" page = false
            | None => False
            end
     | Throw _ => False
     end
  /\ stored (snd (run (cleanupExpiredFiles 1) SweepExample.manyImages)) image
     = [SweepExample.imageNamed 500].
Proof.
  vm_compute. split; [reflexivity |]. split; [reflexivity |].
  split; [| reflexivity]. split; [reflexivity |]. split; reflexivity.
Qed.

Lemma job_step (s : System) (ev : Event) : job (step s ev) = job s.
Proof.
  destruct ev as [| k]; simpl.
  - unfold tick. destruct (job s) as [j |] eqn:E; [| exact E].
    destruct (scheduled j); [| exact E].
    destruct (toNextAwait (task j) (world s)). reflexivity.
  - unfold settle. destruct (nth_error (inflight s) k) as [[a | R e cont] |]; try reflexivity.
    destruct (perform e (world s)) as [r w1].
    destruct (toNextAwait (cont r) w1). reflexivity.
Qed.

Lemma job_exec (s : System) (trace : list Event) : job (exec s trace) = job s.
Proof.
  revert s. induction trace as [| ev trace IH]; intros s; [reflexivity |].
  change (exec s (ev :: trace)) with (exec (step s ev) trace).
  now rewrite IH, job_step.
Qed.

(** A sweep that starts stops at its first [await], the listing of the
    images: it is in progress when the call returns. *)
Lemma cleanupExpiredFiles_suspends (ttl : Z) (w : World) :
  finished (fst (toNextAwait (cleanupExpiredFiles ttl) w)) = false.
Proof. reflexivity. Qed.

(** C5, as the code has it.  The job registered by [startCleanupJob] has
    no guard: whatever has happened since the start, a tick calls
    [cleanupExpiredFiles], which is then in progress, alongside the sweeps
    already in progress: their number grows by one, and the tick is neither
    dropped nor queued. *)
Theorem every_tick_starts_a_sweep (interval ttl : Z) (w : World) (trace : list Event) :
  let s := exec (started interval ttl w) trace in
  sweeps_in_progress (step s Tick) = S (sweeps_in_progress s)
  /\ sweeperState (step s Tick) = Sweeping.
Proof.
  intros s.
  assert (Hjob : job s = Some (startCleanupJob interval ttl)) by apply job_exec.
  assert (Hlen : sweeps_in_progress (step s Tick) = S (sweeps_in_progress s)).
  { simpl. unfold tick. rewrite Hjob. cbn [scheduled startCleanupJob task].
    pose proof (cleanupExpiredFiles_suspends ttl (world s)) as Hsusp.
    destruct (toNextAwait (cleanupExpiredFiles ttl) (world s)) as [p w1].
    cbn [fst] in Hsusp. rewrite Hsusp. unfold sweeps_in_progress. cbn [inflight].
    rewrite length_app. simpl. lia. }
  split; [exact Hlen |].
  unfold sweeperState. unfold sweeps_in_progress in Hlen.
  destruct (inflight (step s Tick)); [discriminate | reflexivity].
Qed.

(** Two ticks in a row on the example: the second arrives while the first
    sweep awaits its listing, and starts a second sweep; both then list
    [old] as expired and both ask the provider to delete it. *)
Lemma overlapping_sweeps_counterexample :
  let s0 := started 15 1 SweepExample.twoImages in
  let s1 := step s0 Tick in
  sweeperState s1 = Sweeping
  /\ sweeps_in_progress (step s1 Tick) = 2%nat
  /\ step s1 Tick <> s1
  /\ destroy_calls
       (world (exec s0 [Tick; Tick; Settle 0; Settle 1; Settle 0; Settle 1]))
     = [("old"%string, image); ("old"%string, image)].
Proof.
  intros s0 s1.
  split; [vm_compute; reflexivity |].
  split; [vm_compute; reflexivity |].
  split; [| vm_compute; reflexivity].
  intros H. apply (f_equal sweeps_in_progress) in H. vm_compute in H. discriminate.
Qed.

End SweepFacts.

(** ** The two split handlers *)

Module SplitHandlersFacts.

(** Where the two handlers agree: ascending in-bounds ranges and single
    pages, one per group. *)
Example handlers_agree_on_plain_groups :
  Demo.serverless (Demo.request Demo.fivePages "1-2;4")
  = Some (Demo.server (Demo.request Demo.fivePages "1-2;4")).
Proof. vm_compute. reflexivity. Qed.

(** The serverless handler reads a segment with a dash as one range,
    whatever else it holds: the text after the dash of ["1-3,5"] is no
    number, and the loop over the range does not run. *)
Example serverless_mixed_atoms : pageNumsOf (lit "1-3,5") = Some [].
Proof. vm_compute. reflexivity. Qed.

(** C10.  On a document of five pages the two handlers differ on each of
    the four kinds of expressions: for ["1-3,5"] the server returns the
    document of pages 1, 2, 3, 5 and the serverless handler a document
    without pages (pageCount 0); for the descending ["3-1"] the server
    answers 'No valid pages specified' and the serverless handler succeeds
    with a document without pages; for the repeated ["2,2"] the server
    returns page 2 once and the serverless handler twice; for the
    out-of-bounds ["9"] the server answers 'No valid pages specified' and
    the serverless handler fails with status 500. *)
Theorem serverless_split_differs :
  Demo.server (Demo.request Demo.fivePages "1-3,5")
    = SplitSuccess 5 [mkSplitFile (lit "1-3,5") 4 (Some [1; 2; 3; 5]%nat) 4]
  /\ Demo.serverless (Demo.request Demo.fivePages "1-3,5")
     = Some (SplitSuccess 5 [mkSplitFile (lit "1-3,5") 0 (Some []) 0])
  /\ Demo.server (Demo.request Demo.fivePages "3-1")
     = Status400 "No valid pages specified"
  /\ Demo.serverless (Demo.request Demo.fivePages "3-1")
     = Some (SplitSuccess 5 [mkSplitFile (lit "3-1") 0 (Some []) 0])
  /\ Demo.server (Demo.request Demo.fivePages "2,2")
     = SplitSuccess 5 [mkSplitFile (lit "2,2") 1 (Some [2]%nat) 1]
  /\ Demo.serverless (Demo.request Demo.fivePages "2,2")
     = Some (SplitSuccess 5 [mkSplitFile (lit "2,2") 2 (Some [2; 2]%nat) 2])
  /\ Demo.server (Demo.request Demo.fivePages "9")
     = Status400 "No valid pages specified"
  /\ Demo.serverless (Demo.request Demo.fivePages "9")
     = Some (Status500 "Failed to split PDF").
Proof.
  split; [vm_compute; reflexivity |]. split; [vm_compute; reflexivity |].
  split; [vm_compute; reflexivity |]. split; [vm_compute; reflexivity |].
  split; [vm_compute; reflexivity |]. split; [vm_compute; reflexivity |].
  split; vm_compute; reflexivity.
Qed.

End SplitHandlersFacts.

(** * Further properties of the code *)

(** ** parsePageRange: bounds, composition, truncation *)

Module ParserExtras.

Lemma split_app_sep (sep : code_unit) (a b : js_string) :
  split sep (a ++ sep :: b) = split sep a ++ split sep b.
Proof.
  induction a as [| c a IH]; simpl.
  - now rewrite N.eqb_refl.
  - destruct (c =? sep)%N; [now rewrite IH |].
    rewrite IH. destruct (split sep a) as [| p ps] eqn:E; [| reflexivity].
    exfalso. destruct a as [| c' a']; simpl in E; [discriminate |].
    destruct (c' =? sep)%N; [discriminate |].
    destruct (split sep a'); discriminate.
Qed.

Lemma ascending_between_length (l : list Z) (lo n : Z) :
  StronglySorted Z.lt l -> Forall (fun i => lo <= i < n) l ->
  (length l <= Z.to_nat (n - lo))%nat.
Proof.
  intros Hs. revert lo. induction Hs as [| a l Hs IH Ha]; intros lo Hb; simpl; [lia |].
  inversion Hb as [| ? ? Hab Hlb]; subst.
  assert (Hl : Forall (fun i => a + 1 <= i < n) l).
  { rewrite Forall_forall in *. intros y Hy.
    specialize (Ha y Hy). specialize (Hlb y Hy). lia. }
  specialize (IH (a + 1) Hl). lia.
Qed.

Lemma parsePageRange_indices (expression : js_string) (totalPages : Z) :
  Forall (fun i => 0 <= i < totalPages) (parsePageRange expression totalPages).
Proof.
  apply Forall_forall. intros x Hx. apply parsePageRange_In in Hx.
  destruct Hx as (part & _ & z & _ & Hz). lia.
Qed.

(** X1.  Every index [parsePageRange] returns names a page of the document
    ([0 <= i < totalPages]), so the result has at most [totalPages]
    entries and is empty for a document without pages. *)
Theorem parsePageRange_within_document (expression : js_string) (totalPages : Z) :
  Forall (fun i => 0 <= i < totalPages) (parsePageRange expression totalPages)
  /\ (length (parsePageRange expression totalPages) <= Z.to_nat totalPages)%nat
  /\ (totalPages <= 0 -> parsePageRange expression totalPages = []).
Proof.
  pose proof (parsePageRange_indices expression totalPages) as Hb.
  split; [exact Hb |]. split.
  - pose proof (ascending_between_length _ 0 totalPages
                  (parsePageRange_ascending expression totalPages) Hb) as H.
    now rewrite Z.sub_0_r in H.
  - intros Hle. destruct (parsePageRange expression totalPages) as [| i l]; [reflexivity |].
    inversion Hb; subst. lia.
Qed.

Lemma parsePageRange_within_document_witness :
  parsePageRange (lit "1-3,5") 0 = [].
Proof.
  apply (proj2 (proj2 (parsePageRange_within_document (lit "1-3,5") 0))). lia.
Defined.

(** X2.  Joining two expressions with a comma selects the union of what
    each selects, and the order in which they are joined does not matter;
    an expression joined with itself selects what it selects alone. *)
Theorem parsePageRange_comma_union (a b : js_string) (totalPages : Z) :
  (forall x, In x (parsePageRange (a ++ comma :: b) totalPages) <->
             In x (parsePageRange a totalPages) \/ In x (parsePageRange b totalPages))
  /\ parsePageRange (a ++ comma :: b) totalPages = parsePageRange (b ++ comma :: a) totalPages
  /\ parsePageRange (a ++ comma :: a) totalPages = parsePageRange a totalPages.
Proof.
  assert (Hunion : forall a b x,
             In x (parsePageRange (a ++ comma :: b) totalPages) <->
             In x (parsePageRange a totalPages) \/ In x (parsePageRange b totalPages)).
  { intros a' b' x. rewrite !parsePageRange_In, split_app_sep, map_app. split.
    - intros (part & Hin & Hc). apply in_app_iff in Hin.
      destruct Hin as [Hin | Hin]; [left | right]; now exists part.
    - intros [(part & Hin & Hc) | (part & Hin & Hc)]; exists part;
        (split; [apply in_app_iff; tauto | assumption]). }
  split; [apply Hunion |]. split.
  - apply strictly_ascending_unique; try apply parsePageRange_ascending.
    intros x. rewrite !Hunion. tauto.
  - apply strictly_ascending_unique; try apply parsePageRange_ascending.
    intros x. rewrite Hunion. tauto.
Qed.

(** X3.  On a shorter document the same expression selects the same pages
    cut at the new page count: the result for [totalPages] is the result
    for any larger count with the indices from [totalPages] on removed. *)
Theorem parsePageRange_truncates (expression : js_string) (totalPages larger : Z) :
  totalPages <= larger ->
  parsePageRange expression totalPages
  = filter (fun i => i <? totalPages) (parsePageRange expression larger).
Proof.
  intros Hle. apply strictly_ascending_unique.
  - apply parsePageRange_ascending.
  - apply StronglySorted_filter_lt, parsePageRange_ascending.
  - intros x. rewrite filter_In, !parsePageRange_In, Z.ltb_lt. split.
    + intros (part & Hin & z & Hc & Hz). split; [| lia].
      exists part. split; [assumption |]. exists z. repeat split; try lia. assumption.
    + intros [(part & Hin & z & Hc & Hz) Hx].
      exists part. split; [assumption |]. exists z. repeat split; try lia. assumption.
Qed.

Lemma parsePageRange_truncates_witness :
  parsePageRange (lit "2-9,1") 4
  = filter (fun i => i <? 4) (parsePageRange (lit "2-9,1") 10).
Proof. apply (parsePageRange_truncates (lit "2-9,1") 4 10). lia. Defined.

End ParserExtras.

(** ** Merge, split and reorder: outputs, composition, permutations *)

Section EngineExtras.

Variable Page : Type.
Variable Buffer : Type.
Variable load : Buffer -> option (PDFDocument Page).
Variable save : PDFDocument Page -> Buffer.
Variable Upload : Type.
Variable uploadToCloudinary : Buffer -> option Upload.
Variable byteLength : Buffer -> Z.



Lemma splitPdf_loaded (pdfBuffer : Buffer) (original : PDFDocument Page)
  (pageRanges : js_string) (results : list (SplitResult Buffer)) :
  load pdfBuffer = Some original ->
  splitPdf load save pdfBuffer pageRanges = Normal results ->
  Forall2 (split_result_of save original)
          (filter (selects_pages original) (splitGroups pageRanges)) results.
Proof.
  intros Hload Hsplit.
  destruct (splitLoop_results Page Buffer save original (splitGroups pageRanges) [])
    as (rs & Hloop & Hall).
  unfold splitPdf, PDFDocument_load in Hsplit. rewrite Hload in Hsplit.
  simpl in Hsplit, Hloop. rewrite Hloop in Hsplit. now injection Hsplit as <-.
Qed.

Lemma split_results_facts (original : PDFDocument Page) (groups : list js_string)
  (results : list (SplitResult Buffer)) :
  Forall2 (split_result_of save original) (filter (selects_pages original) groups) results ->
  Forall (fun r => 1 <= pageCount r <= getPageCount original
                   /\ In (pages r) groups) results.
Proof.
  intros Hall.
  assert (Hgroups : Forall (fun g => In g groups /\ selects_pages original g = true)
                           (filter (selects_pages original) groups)).
  { apply Forall_forall. intros g Hg. now apply filter_In in Hg. }
  revert Hgroups.
  induction Hall as [| g r gs rs Hr Hrs IH]; intros Hgroups; constructor.
  - inversion Hgroups as [| ? ? [Hin Hsel] _]; subst.
    destruct Hr as (ps & Hat & ->). cbn [pageCount pages].
    unfold selects_pages in Hsel.
    pose proof (ParserExtras.ascending_between_length _ 0 (getPageCount original)
                  (parsePageRange_ascending g (getPageCount original))
                  (ParserExtras.parsePageRange_indices g (getPageCount original))) as Hlen.
    destruct (parsePageRange g (getPageCount original)) as [| i l]; [discriminate |].
    repeat split; try assumption.
    + simpl length. lia.
    + unfold getPageCount in *. lia.
  - apply IH. inversion Hgroups; subst; assumption.
Qed.



Lemma traverse_uploads (results : list (SplitResult Buffer)) (files : list (SplitFile Upload)) :
  traverse (fun result =>
              uploadResult <- upload uploadToCloudinary (buffer result) ;;
              Normal (mkSplitFile (pages result) (pageCount result)
                                  uploadResult (byteLength (buffer result))))
           results = Normal files ->
  map file_pages files = map pages results
  /\ map file_pageCount files = map pageCount results
  /\ Forall2 (fun r f => uploadToCloudinary (buffer r) = Some (file_upload f)) results files.
Proof.
  revert files. induction results as [| r rs IH]; intros files H; simpl in H.
  - injection H as <-. repeat split. constructor.
  - unfold upload in H. destruct (uploadToCloudinary (buffer r)) as [u |] eqn:Eu;
      [| discriminate]. simpl in H.
    destruct (traverse _ rs) as [fs | e] eqn:E; [| discriminate]. simpl in H.
    injection H as <-. destruct (IH fs eq_refl) as (H1 & H2 & H3).
    simpl. rewrite H1, H2. repeat split. constructor; assumption.
Qed.

(** X6.  When the server's split handler answers with success, the request
    had a file that parses and a non-empty page string, the response
    reports the page count of that file, and it lists at least one file:
    one for each group that selects pages, in the order of the groups and
    under the group's text, each with between 1 and the original's page
    count pages and stored by an upload that succeeded. *)
Theorem splitHandler_success (req : Request Buffer) (n : Z)
  (files : list (SplitFile Upload)) :
  splitHandler load save uploadToCloudinary byteLength req = SplitSuccess n files ->
  exists fileBuffer bodyPages original,
    req_file req = Some fileBuffer
    /\ req_pages req = Some bodyPages /\ bodyPages <> []
    /\ load fileBuffer = Some original
    /\ n = getPageCount original
    /\ files <> []
    /\ map file_pages files = filter (selects_pages original) (splitGroups bodyPages)
    /\ Forall (fun f => 1 <= file_pageCount f <= n) files.
Proof.
  unfold splitHandler, splitHandlerBody. intros H.
  destruct (req_file req) as [fileBuffer |]; [| discriminate].
  destruct (req_pages req) as [[| c bodyPages] |]; try discriminate.
  unfold splitValidated, getPdfInfo in H.
  destruct (load fileBuffer) as [original |] eqn:Hload;
    [| unfold PDFDocument_load in H; rewrite Hload in H; discriminate].
  assert (Hinfo : PDFDocument_load load fileBuffer = Normal original)
    by (unfold PDFDocument_load; now rewrite Hload).
  rewrite Hinfo in H. cbn [bind] in H.
  destruct (splitPdf load save fileBuffer (c :: bodyPages)) as [results | e] eqn:Hsplit;
    [| discriminate].
  cbn [bind] in H.
  pose proof (splitPdf_loaded _ _ _ _ Hload Hsplit) as Hall.
  destruct results as [| r rs]; [discriminate |].
  cbn [length Nat.eqb] in H.
  destruct (traverse _ (r :: rs)) as [fs | e] eqn:Ht; [| discriminate].
  cbn [bind] in H. injection H as <- <-.
  destruct (traverse_uploads _ _ Ht) as (Hp & Hc & _).
  exists fileBuffer, (c :: bodyPages), original.
  repeat split; try reflexivity; try discriminate; try assumption.
  - intros E. subst fs. discriminate.
  - rewrite Hp. clear - Hall. induction Hall as [| g x gs xs (ps & _ & ->) _ IH];
      [reflexivity |]. simpl. now rewrite IH.
  - pose proof (split_results_facts _ _ _ Hall) as Hfacts.
    assert (Hcounts : Forall (fun c => 1 <= c <= getPageCount original)
                             (map pageCount (r :: rs))).
    { apply Forall_map. eapply Forall_impl; [| exact Hfacts]. intros x Hx. apply Hx. }
    rewrite <- Hc in Hcounts. now apply Forall_map in Hcounts.
Qed.

Lemma serverlessLoop_files (sourcePdf : PDFDocument Page) (pageRanges : list js_string)
  (results files : list (SplitFile Upload)) :
  serverlessLoop save uploadToCloudinary byteLength sourcePdf pageRanges results
    = Some (Normal files) ->
  map file_pages files = map file_pages results ++ pageRanges.
Proof.
  revert results. induction pageRanges as [| range rest IH]; intros results H; simpl in H.
  - injection H as <-. now rewrite app_nil_r.
  - destruct (pageNumsOf range) as [pageNums |]; [| discriminate].
    destruct (serverlessFile _ _ _ _ _ _) as [file | e] eqn:Ef; [| discriminate].
    rewrite (IH _ H), map_app, <- app_assoc. simpl. do 2 f_equal.
    unfold serverlessFile in Ef.
    destruct (copyPages sourcePdf pageNums); [| discriminate]. simpl in Ef.
    destruct (upload uploadToCloudinary _); [| discriminate]. simpl in Ef.
    now injection Ef as <-.
Qed.

(** X7.  The serverless split handler never omits a segment and never
    answers with status 400: when it succeeds it lists exactly one file for
    each semicolon-separated segment of the page string, in order and under
    the segment's trimmed text (the empty segments included), and every
    failure it reports has status 500. *)
Theorem serverless_split_one_file_per_segment (req : Request Buffer) :
  (forall (n : Z) (files : list (SplitFile Upload)),
      serverlessSplitHandler load save uploadToCloudinary byteLength req
        = Some (SplitSuccess n files) ->
      exists bodyPages,
        req_pages req = Some bodyPages
        /\ map file_pages files = map trim (split semicolon bodyPages)
        /\ files <> [])
  /\ (forall message : string,
         serverlessSplitHandler load save uploadToCloudinary byteLength req
         <> Some (Status400 message)).
Proof.
  unfold serverlessSplitHandler. split.
  - intros n files H.
    destruct (req_file req) as [fileBuffer |]; [| discriminate].
    destruct (req_pages req) as [bodyPages |]; [| discriminate].
    destruct (PDFDocument_load load fileBuffer) as [sourcePdf | e]; [| discriminate].
    destruct (serverlessLoop _ _ _ _ _ _) as [[fs | e] |] eqn:El; try discriminate.
    injection H as <- <-. exists bodyPages.
    pose proof (serverlessLoop_files _ _ _ _ El) as Hf. simpl in Hf.
    repeat split; [exact Hf |].
    intros ->. simpl in Hf. symmetry in Hf. apply map_eq_nil in Hf.
    destruct bodyPages as [| c s']; simpl in Hf; [discriminate |].
    destruct (c =? semicolon)%N; [discriminate |].
    destruct (split semicolon s'); discriminate.
  - intros message H.
    destruct (req_file req) as [fileBuffer |]; [| discriminate].
    destruct (req_pages req) as [bodyPages |]; [| discriminate].
    destruct (PDFDocument_load load fileBuffer) as [sourcePdf | e]; [| discriminate].
    destruct (serverlessLoop _ _ _ _ _ _) as [[fs | e] |]; discriminate.
Qed.

End EngineExtras.



Lemma splitHandler_success_witness :
  exists fileBuffer bodyPages original,
    req_file (Demo.request Demo.fivePages "9;1-3,5") = Some fileBuffer
    /\ req_pages (Demo.request Demo.fivePages "9;1-3,5") = Some bodyPages
    /\ bodyPages <> []
    /\ Demo.load fileBuffer = Some original
    /\ 5 = getPageCount original
    /\ [mkSplitFile (lit "1-3,5") 4 (Some [1; 2; 3; 5]%nat) 4] <> []
    /\ map file_pages [mkSplitFile (lit "1-3,5") 4 (Some [1; 2; 3; 5]%nat) 4]
       = filter (selects_pages original) (splitGroups bodyPages)
    /\ Forall (fun f => 1 <= file_pageCount f <= 5)
              [mkSplitFile (lit "1-3,5") 4 (Some [1; 2; 3; 5]%nat) 4].
Proof.
  apply (splitHandler_success Demo.Page Demo.Buffer Demo.load Demo.save Demo.Buffer
           Demo.uploadToCloudinary Demo.byteLength
           (Demo.request Demo.fivePages "9;1-3,5")).
  vm_compute. reflexivity.
Defined.

Lemma serverless_split_one_file_per_segment_witness :
  exists bodyPages,
    req_pages (Demo.request Demo.fivePages "1-2;4") = Some bodyPages
    /\ map file_pages [mkSplitFile (lit "1-2") 2 (Some [1; 2]%nat) 2;
                       mkSplitFile (lit "4") 1 (Some [4]%nat) 1]
       = map trim (split semicolon bodyPages)
    /\ [mkSplitFile (lit "1-2") 2 (Some [1; 2]%nat) 2;
        mkSplitFile (lit "4") 1 (Some [4]%nat) 1] <> [].
Proof.
  apply (proj1 (serverless_split_one_file_per_segment Demo.Page Demo.Buffer Demo.load
                  Demo.save Demo.Buffer Demo.uploadToCloudinary Demo.byteLength
                  (Demo.request Demo.fivePages "1-2;4")) 5).
  vm_compute. reflexivity.
Defined.

Section ReorderExtras.

Variable Page : Type.
Variable Buffer : Type.
Variable load : Buffer -> option (PDFDocument Page).
Variable save : PDFDocument Page -> Buffer.

Lemma pages_at_map (src : PDFDocument Page) (indices : list Z) (ps : list Page) :
  pages_at src indices ps ->
  map Some ps = map (fun i => nth_error (docPages src) (Z.to_nat i)) indices.
Proof.
  induction 1 as [| i p l ps' [_ Hp] Hl IH]; simpl; [reflexivity |].
  now rewrite IH, Hp.
Qed.

Lemma map_Some_inj {A : Type} (l1 l2 : list A) : map Some l1 = map Some l2 -> l1 = l2.
Proof.
  revert l2. induction l1 as [| a l1 IH]; intros [| b l2] H; try discriminate;
    [reflexivity |].
  simpl in H. injection H as -> H. f_equal. now apply IH.
Qed.

Lemma all_pages_map (l : list Page) :
  map (fun i : Z => nth_error l (Z.to_nat i))
      (map (fun n : nat => Z.of_nat n - 1) (seq 1 (length l)))
  = map Some l.
Proof.
  rewrite map_map.
  assert (H : forall pre suf : list Page,
             map (fun n => nth_error (pre ++ suf) (Z.to_nat (Z.of_nat n - 1)))
                 (seq (S (length pre)) (length suf)) = map Some suf).
  { intros pre suf. revert pre. induction suf as [| p suf IH]; intros pre;
      cbn [length seq map]; [reflexivity |].
    replace (Z.to_nat (Z.of_nat (S (length pre)) - 1)) with (length pre) by lia.
    rewrite nth_error_app2, Nat.sub_diag by lia. cbn [nth_error]. f_equal.
    specialize (IH (pre ++ [p])). rewrite <- app_assoc, length_app in IH. simpl in IH.
    rewrite Nat.add_1_r in IH. exact IH. }
  exact (H [] l).
Qed.

Lemma validOrder_all_valid (totalPages : Z) (newOrder : list Z) :
  Forall (fun n => 1 <= n <= totalPages) newOrder ->
  validOrder totalPages newOrder = map (fun n => n - 1) newOrder.
Proof.
  intros H. unfold validOrder. f_equal.
  induction H as [| n l Hn Hl IH]; simpl; [reflexivity |].
  assert (E : (1 <=? n) && (n <=? totalPages) = true)
    by (rewrite andb_true_iff, !Z.leb_le; lia).
  now rewrite E, IH.
Qed.

(** X8.  Reordering a document with pages by an order that lists each of
    its page numbers once returns the same pages rearranged (a permutation
    of them, none lost and none repeated), and the order [1, ..., n] returns
    the pages as they were. *)
Theorem reorder_permutation (pdfBuffer : Buffer) (original : PDFDocument Page)
  (newOrder : list Z) :
  load pdfBuffer = Some original ->
  docPages original <> [] ->
  Permutation newOrder (map Z.of_nat (seq 1 (length (docPages original)))) ->
  exists ps,
    reorderedDocument load pdfBuffer newOrder = Normal (mkDocument ps)
    /\ reorderPdfPages load save pdfBuffer newOrder = Normal (save (mkDocument ps))
    /\ Permutation ps (docPages original)
    /\ (newOrder = map Z.of_nat (seq 1 (length (docPages original))) ->
        ps = docPages original).
Proof.
  intros Hload Hne Hperm.
  set (n := length (docPages original)) in *.
  assert (Hvalid : Forall (fun k => 1 <= k <= getPageCount original) newOrder).
  { apply Forall_forall. intros k Hk.
    apply (Permutation_in _ Hperm) in Hk. apply in_map_iff in Hk.
    destruct Hk as (m & <- & Hm). apply in_seq in Hm. unfold getPageCount. fold n. lia. }
  pose proof (validOrder_all_valid _ _ Hvalid) as Hvo.
  assert (Hkept : validOrder (getPageCount original) newOrder <> []).
  { rewrite Hvo. intros E. apply map_eq_nil in E. subst newOrder.
    apply Permutation_nil in Hperm. apply map_eq_nil in Hperm.
    destruct (docPages original); [congruence | discriminate]. }
  destruct (copyPages_in_range Page original _ (validOrder_bounds (getPageCount original) newOrder))
    as (ps & Hcopy & Hat).
  exists ps.
  assert (Hdoc : reorderedDocument load pdfBuffer newOrder = Normal (mkDocument ps)).
  { unfold reorderedDocument, PDFDocument_load. rewrite Hload. simpl.
    destruct (validOrder (getPageCount original) newOrder) as [| i l] eqn:E; [congruence |].
    simpl length. simpl Nat.eqb. cbv iota. rewrite Hcopy. simpl.
    now rewrite addPages_create. }
  split; [exact Hdoc |]. split; [unfold reorderPdfPages; now rewrite Hdoc |].
  pose proof (pages_at_map _ _ _ Hat) as Hmap. rewrite Hvo in Hmap.
  split.
  - assert (Hp : Permutation (map Some ps) (map Some (docPages original))).
    { rewrite Hmap, <- all_pages_map. fold n.
      apply Permutation_map.
      replace (map (fun k => Z.of_nat k - 1) (seq 1 n))
        with (map (fun k => k - 1) (map Z.of_nat (seq 1 n))) by now rewrite map_map.
      now apply Permutation_map. }
    apply Permutation_sym, Permutation_map_inv in Hp.
    destruct Hp as (l3 & E & Hp). apply map_Some_inj in E. subst l3.
    now apply Permutation_sym.
  - intros ->. apply map_Some_inj. rewrite Hmap, <- all_pages_map. fold n.
    now rewrite !map_map.
Qed.

End ReorderExtras.

Lemma reorder_permutation_witness :
  exists ps,
    reorderedDocument Demo.load (Some [10; 20; 30]%nat) [2; 3; 1] = Normal (mkDocument ps)
    /\ reorderPdfPages Demo.load Demo.save (Some [10; 20; 30]%nat) [2; 3; 1]
       = Normal (Demo.save (mkDocument ps))
    /\ Permutation ps (docPages (mkDocument [10; 20; 30]%nat))
    /\ ([2; 3; 1] = map Z.of_nat (seq 1 (length (docPages (mkDocument [10; 20; 30]%nat)))) ->
        ps = docPages (mkDocument [10; 20; 30]%nat)).
Proof.
  apply (reorder_permutation Demo.Page Demo.Buffer Demo.load Demo.save
           (Some [10; 20; 30]%nat) (mkDocument [10; 20; 30]%nat) [2; 3; 1]).
  - reflexivity.
  - discriminate.
  - simpl. apply Permutation_sym.
    apply (perm_trans (l' := [2; 1; 3])); [apply perm_swap |].
    apply perm_skip. apply perm_swap.
Defined.

(** ** The sweeper: what a sweep may delete, what it reports *)

Module SweeperExtras.

Import Cleanup CleanupFacts CleanupSpec.

Lemma firstn_In_list {A : Type} (n : nat) (l : list A) (x : A) :
  In x (firstn n l) -> In x l.
Proof.
  intros H. rewrite <- (firstn_skipn n l). apply in_app_iff. now left.
Qed.

Lemma expired_from_In (ttl : Z) (c : nat -> Z) (n : nat) (l : list Resource) (r : Resource) :
  In r (expired_from ttl c n l) ->
  In r l /\ exists m, (n <= m < n + length l)%nat
                      /\ olderThan (c m) (created_at r) (ttl * 60 * 60 * 1000) = true.
Proof.
  revert n. induction l as [| a l IH]; intros n H; simpl in H; [destruct H |].
  destruct (olderThan (c n) (created_at a) (ttl * 60 * 60 * 1000)) eqn:E.
  - destruct H as [<- | H].
    + split; [now left |]. exists n. split; [simpl; lia | exact E].
    + destruct (IH _ H) as (Hin & m & Hm & Ho). split; [now right |].
      exists m. split; [simpl; lia | exact Ho].
  - destruct (IH _ H) as (Hin & m & Hm & Ho). split; [now right |].
    exists m. split; [simpl; lia | exact Ho].
Qed.

Lemma expired_from_length (ttl : Z) (c : nat -> Z) (n : nat) (l : list Resource) :
  (length (expired_from ttl c n l) <= length l)%nat.
Proof.
  revert n. induction l as [| a l IH]; intros n; simpl; [lia |].
  destruct (olderThan _ _ _); simpl; specialize (IH (S n)); lia.
Qed.

Lemma selectedBy_facts (ttl : Z) (w : World) (rt : ResourceType) :
  (length (selectedBy ttl w rt) <= 500)%nat
  /\ forall r, In r (selectedBy ttl w rt) ->
               In r (stored w rt) /\ has_tag "temp_upload" r = true
               /\ exists m, (clock_reads w <= m)%nat
                            /\ olderThan (clock w m) (created_at r) (ttl * 60 * 60 * 1000) = true.
Proof.
  unfold selectedBy. destruct (listing_error w rt).
  - split; [simpl; lia | intros r []].
  - split.
    + etransitivity; [apply expired_from_length | apply firstn_le_length].
    + intros r Hr. apply expired_from_In in Hr. destruct Hr as (Hin & m & Hm & Ho).
      apply firstn_In_list in Hin. unfold allTagged in Hin. apply filter_In in Hin.
      destruct Hin as [Hin Htag]. repeat split; try assumption.
      exists m. split; [lia | exact Ho].
Qed.

(** A pass over one kind, whatever the provider answers. *)
Lemma pass_any (ttl : Z) (rt : ResourceType) (w : World) :
  exists w',
    run (cleanupResourceType ttl rt) w =
      (Normal (Z.of_nat (length (filter (deletion_succeeds w) (selectedBy ttl w rt)))), w')
    /\ destroy_calls w' =
       destroy_calls w ++ map (fun r => (public_id r, rt)) (selectedBy ttl w rt)
    /\ (forall k, stored w' k = if ResourceType_eqb k rt
                                then survivors w (selectedBy ttl w rt) (stored w k)
                                else stored w k)
    /\ same_oracles w w'
    /\ (clock_reads w <= clock_reads w' <= clock_reads w + 500)%nat.
Proof.
  unfold selectedBy. destruct (listing_error w rt) as [message |] eqn:E.
  - rewrite (cleanupResourceType_listing_fails ttl rt w message E).
    eexists. split; [reflexivity |]. cbn [destroy_calls stored clock_reads map length filter].
    rewrite app_nil_r. repeat split; try lia.
    intros k. rewrite survivors_none. now destruct (ResourceType_eqb k rt).
  - destruct (cleanupResourceType_run ttl rt w E)
      as (w' & Hrun & Hcalls & _ & Hstored & Ho & Hreads).
    exists w'. repeat split; try assumption; try apply Ho.
    + lia.
    + rewrite Hreads. pose proof (firstn_le_length 500 (allTagged w "temp_upload" rt)). lia.
Qed.

(** A sweep, whatever the provider answers: the objects it sends to the
    provider, images first, are deletable objects of the store, at most 500
    of each kind. *)
Lemma sweep_any (ttl : Z) (w : World) :
  exists Ei Er w' elapsed,
    run (cleanupExpiredFiles ttl) w = (Normal tt, w')
    /\ destroy_calls w' =
       destroy_calls w ++ map (fun r => (public_id r, image)) Ei
                       ++ map (fun r => (public_id r, raw)) Er
    /\ stored w' image = survivors w Ei (stored w image)
    /\ stored w' raw = survivors w Er (stored w raw)
    /\ Forall (deletable ttl w image) Ei /\ Forall (deletable ttl w raw) Er
    /\ (length Ei <= 500)%nat /\ (length Er <= 500)%nat
    /\ report w' =
       Some (LogCompleted elapsed
               (Z.of_nat (length (filter (deletion_succeeds w) Ei))
                + Z.of_nat (length (filter (deletion_succeeds w) Er)))
               (Z.of_nat (length (filter (deletion_succeeds w) Ei)))
               (Z.of_nat (length (filter (deletion_succeeds w) Er))))
    /\ same_oracles w w'
    /\ (clock_reads w' <= clock_reads w + 1002)%nat.
Proof.
  destruct (pass_any ttl image (sweepStarted w)) as (wi & Hi & Hci & Hsi & Hoi & Hri).
  destruct (pass_any ttl raw wi) as (wr & Hr & Hcr & Hsr & Hor & Hrr).
  destruct (selectedBy_facts ttl (sweepStarted w) image) as (Hleni & Hfi).
  destruct (selectedBy_facts ttl wi raw) as (Hlenr & Hfr).
  set (Ei := selectedBy ttl (sweepStarted w) image) in *.
  set (Er := selectedBy ttl wi raw) in *.
  destruct Hoi as (Hli & Hdi & Hki). destruct Hor as (Hlr & Hdr & Hkr).
  change (listing_error (sweepStarted w)) with (listing_error w) in Hli.
  change (destroy_error (sweepStarted w)) with (destroy_error w) in Hdi.
  change (clock (sweepStarted w)) with (clock w) in Hki, Hfi.
  change (clock_reads (sweepStarted w)) with (S (clock_reads w)) in Hri, Hfi.
  change (stored (sweepStarted w)) with (stored w) in Hsi, Hfi.
  change (destroy_calls (sweepStarted w)) with (destroy_calls w) in Hci.
  change (deletion_succeeds (sweepStarted w)) with (deletion_succeeds w) in Hi.
  change (survivors (sweepStarted w)) with (survivors w) in Hsi.
  rewrite (filter_ext _ _ (fun x => deletion_succeeds_ext w wi x Hdi)) in Hr.
  exists Ei, Er. eexists. eexists.
  split; [apply (cleanupExpiredFiles_run ttl w wi wr _ _ Hi Hr) |].
  cbn [destroy_calls stored clock_reads].
  split; [rewrite Hcr, Hci; now rewrite app_assoc |].
  split; [rewrite (Hsr image), (Hsi image); reflexivity |].
  split; [rewrite (Hsr raw), (survivors_ext w wi _ _ Hdi), (Hsi raw); reflexivity |].
  split.
  { apply Forall_forall. intros r Hin. destruct (Hfi r Hin) as (Hs & Ht & m & Hm & Ho).
    repeat split; try assumption. exists m. split; [lia | exact Ho]. }
  split.
  { apply Forall_forall. intros r Hin. destruct (Hfr r Hin) as (Hs & Ht & m & Hm & Ho).
    rewrite (Hsi raw) in Hs. rewrite Hki in Ho.
    repeat split; try assumption. exists m. split; [lia | exact Ho]. }
  split; [exact Hleni |]. split; [exact Hlenr |].
  split; [unfold report; cbn [console]; rewrite rev_app_distr; reflexivity |].
  split; [| lia].
  repeat split; cbn [listing_error destroy_error clock]; congruence.
Qed.

Lemma deletable_not_kept (ttl : Z) (w : World) (kind : ResourceType)
  (E l : list Resource) (r : Resource) :
  Forall (deletable ttl w kind) E -> In r l ->
  (forall x, deletable ttl w kind x -> public_id x <> public_id r) ->
  In r (survivors w E l).
Proof.
  intros HE Hin Hno. unfold survivors. apply filter_In. split; [assumption |].
  apply negb_true_iff. apply not_true_is_false. intros Hex.
  apply existsb_exists in Hex. destruct Hex as (x & Hx & Hb).
  apply andb_prop in Hb. destruct Hb as [Hid _]. apply String.eqb_eq in Hid.
  rewrite Forall_forall in HE. exact (Hno x (HE x Hx) Hid).
Qed.


(** X10.  The report of a sweep counts the deletions the provider accepted,
    by kind, and their sum: never more than the deletions the sweep asked
    for, exactly that many when the provider rejects none, and a sweep asks
    for at most 500 deletions of each kind and reads the clock at most
    1002 times. *)
Theorem sweep_report_counts (ttl : Z) (w : World) :
  let w' := snd (run (cleanupExpiredFiles ttl) w) in
  exists elapsed imagesDeleted rawDeleted,
    report w' = Some (LogCompleted elapsed (imagesDeleted + rawDeleted)
                                   imagesDeleted rawDeleted)
    /\ 0 <= imagesDeleted <= 500 /\ 0 <= rawDeleted <= 500
    /\ imagesDeleted + rawDeleted <= attempted w' - attempted w
    /\ attempted w' - attempted w <= 1000
    /\ ((forall publicId, destroy_error w publicId = None) ->
        imagesDeleted + rawDeleted = attempted w' - attempted w)
    /\ (clock_reads w' <= clock_reads w + 1002)%nat.
Proof.
  destruct (sweep_any ttl w)
    as (Ei & Er & w1 & elapsed & Hrun & Hcalls & _ & _ & _ & _ & Hli & Hlr & Hrep & _ & Hreads).
  intros w'. subst w'. rewrite Hrun. cbn [snd].
  exists elapsed. eexists. eexists. split; [exact Hrep |].
  pose proof (filter_length_le (deletion_succeeds w) Ei) as Hfi.
  pose proof (filter_length_le (deletion_succeeds w) Er) as Hfr.
  assert (Hatt : attempted w1 - attempted w = Z.of_nat (length Ei) + Z.of_nat (length Er)).
  { unfold attempted. rewrite Hcalls, !length_app, !length_map. lia. }
  rewrite Hatt. repeat split; try lia.
  intros Hok.
  assert (Hall : forall l, filter (deletion_succeeds w) l = l).
  { intros l. induction l as [| a l IH]; simpl; [reflexivity |].
    unfold deletion_succeeds at 1. now rewrite Hok, IH. }
  now rewrite !Hall.
Qed.

End SweeperExtras.

(** ** The configured TTL *)

Module ConfigExtras.

Import Cleanup CleanupFacts.

(** X11.  [parseInt(env) || fallback] keeps every number but 0 and NaN,
    negative ones too: an absent, non-numeric or zero setting gives the
    fallback, and with a negative [FILE_TTL_HOURS] every object whose
    creation time is not in the future is expired at once. *)
Theorem configured_ttl (fallback : Z) :
  (forall text : js_string,
      (parseInt text = None \/ parseInt text = Some 0) ->
      configValue (Some text) fallback = fallback)
  /\ configValue None fallback = fallback
  /\ (forall (text : js_string) (n : Z),
         parseInt text = Some n -> n <> 0 -> configValue (Some text) fallback = n)
  /\ (forall (text : js_string) (n : Z),
         parseInt text = Some n -> n < 0 ->
         forall (w : World) (t : Z),
           t <= clock w (clock_reads w) ->
           fst (run (isExpired (configValue (Some text) fallback) (Some t)) w) = Normal true).
Proof.
  split; [| split; [reflexivity | split]].
  - intros text [H | H]; unfold configValue; rewrite H; reflexivity.
  - intros text n H Hn. unfold configValue. rewrite H.
    destruct (n =? 0) eqn:E; [apply Z.eqb_eq in E; contradiction | reflexivity].
  - intros text n H Hn w t Ht.
    assert (Hc : configValue (Some text) fallback = n).
    { unfold configValue. rewrite H.
      destruct (n =? 0) eqn:E; [apply Z.eqb_eq in E; lia | reflexivity]. }
    rewrite Hc, isExpired_run. cbn [fst olderThan]. f_equal. apply Z.ltb_lt. lia.
Qed.

Lemma configured_ttl_witness :
  fst (run (isExpired (configValue (Some (lit "-1")) 1) (Some 9000000))
           SweepExample.twoImages) = Normal true.
Proof.
  apply (proj2 (proj2 (proj2 (configured_ttl 1))) (lit "-1") (-1)).
  - reflexivity.
  - lia.
  - cbv [SweepExample.twoImages clock clock_reads]. lia.
Defined.

End ConfigExtras.

(** ** The file filters *)

Module ValidationExtras.

Import Validation.

Lemma createFileFilter_accepts (allowed : list string) (mimetype : string) :
  createFileFilter allowed mimetype = Accept <-> In mimetype allowed.
Proof.
  unfold createFileFilter. destruct (existsb (String.eqb mimetype) allowed) eqn:E.
  - split; [intros _ | reflexivity]. apply existsb_exists in E.
    destruct E as (x & Hx & Heq). apply String.eqb_eq in Heq. now subst.
  - split; [discriminate |]. intros Hin. exfalso.
    assert (existsb (String.eqb mimetype) allowed = true).
    { apply existsb_exists. exists mimetype. split; [assumption | apply String.eqb_refl]. }
    congruence.
Qed.

(** X12.  A filter made for the concatenation of two lists of types accepts
    a file exactly when one of the filters made for each list does, so
    [uploadAny] accepts what [uploadImage] or [uploadPdf] accepts; no type
    is accepted by both of these; and the error of a rejected file is
    answered by [handleMulterError] with status 400 and the message naming
    the type and the allowed types, never handed on. *)
Theorem file_filters :
  (forall (a b : list string) (mimetype : string),
      createFileFilter (a ++ b) mimetype = Accept <->
      createFileFilter a mimetype = Accept \/ createFileFilter b mimetype = Accept)
  /\ (forall mimetype : string,
         anyFilter mimetype = Accept <->
         imageFilter mimetype = Accept \/ pdfFilter mimetype = Accept)
  /\ (forall mimetype : string,
         ~ (imageFilter mimetype = Accept /\ pdfFilter mimetype = Accept))
  /\ (forall (allowed : list string) (mimetype : string) (error : UploadError)
             (maxFileSizeMB maxFiles : Z),
         createFileFilter allowed mimetype = Reject error ->
         handleMulterError maxFileSizeMB maxFiles error
         = Answer400 ("Invalid file type: " ++ mimetype ++ ". Allowed types: "
                      ++ joinTypes allowed)%string).
Proof.
  assert (Happ : forall a b m,
             createFileFilter (a ++ b) m = Accept <->
             createFileFilter a m = Accept \/ createFileFilter b m = Accept).
  { intros a b m. rewrite !createFileFilter_accepts. apply in_app_iff. }
  split; [exact Happ |]. split; [intros m; apply Happ |]. split.
  - intros m [Hi Hp]. unfold imageFilter, pdfFilter in *.
    apply createFileFilter_accepts in Hi, Hp.
    destruct Hp as [<- | []]. simpl in Hi.
    repeat (destruct Hi as [Hi | Hi]; [discriminate |]). exact Hi.
  - intros allowed m error mb mf H. unfold createFileFilter in H.
    destruct (existsb (String.eqb m) allowed); [discriminate |].
    injection H as <-. reflexivity.
Qed.

Lemma file_filters_witness :
  handleMulterError 20 10
    (CodedError "INVALID_FILE_TYPE"
       "Invalid file type: text/plain. Allowed types: application/pdf")
  = Answer400 ("Invalid file type: " ++ "text/plain" ++ ". Allowed types: "
               ++ joinTypes ALLOWED_PDF_TYPES)%string.
Proof.
  apply (proj2 (proj2 (proj2 file_filters)) ALLOWED_PDF_TYPES "text/plain"%string).
  reflexivity.
Defined.

End ValidationExtras.

(** ** The key of the rate limiter *)

Module RateLimitExtras.

Import RateLimit.

Lemma split_without_separator (sep : code_unit) (s : js_string) :
  includes sep s = false -> split sep s = [s].
Proof.
  unfold includes. induction s as [| c s IH]; simpl; [reflexivity |].
  intros H. apply orb_false_iff in H. destruct H as [Hc Hs].
  rewrite N.eqb_sym, Hc, (IH Hs). reflexivity.
Qed.

Lemma first_entry (a b : js_string) :
  includes comma a = false ->
  nth 0 (split comma (a ++ comma :: b)) [] = a.
Proof.
  intros H. rewrite ParserExtras.split_app_sep, (split_without_separator _ _ H). reflexivity.
Qed.

Lemma trimStart_whitespace (pre s : js_string) :
  forallb isWhiteSpace pre = true -> trimStart (pre ++ s) = trimStart s.
Proof.
  induction pre as [| c pre IH]; simpl; [reflexivity |].
  intros H. apply andb_true_iff in H. destruct H as [Hc Hp]. rewrite Hc. now apply IH.
Qed.

Lemma trimStart_kept (s : js_string) :
  isWhiteSpace (hd 0%N s) = false -> trimStart s = s.
Proof.
  destruct s as [| c s]; simpl; [reflexivity |]. now intros ->.
Qed.

Lemma trim_padded (pre v post : js_string) :
  forallb isWhiteSpace pre = true -> forallb isWhiteSpace post = true ->
  v <> [] -> isWhiteSpace (hd 0%N v) = false -> isWhiteSpace (last v 0%N) = false ->
  trim (pre ++ v ++ post) = v.
Proof.
  intros Hpre Hpost Hv Hhd Hlast. unfold trim, trimEnd.
  rewrite trimStart_whitespace by assumption.
  assert (H1 : trimStart (v ++ post) = v ++ post).
  { apply trimStart_kept. destruct v; [contradiction | exact Hhd]. }
  rewrite H1, rev_app_distr, trimStart_whitespace.
  - rewrite trimStart_kept; [apply rev_involutive |].
    destruct (exists_last Hv) as (v' & l & ->).
    rewrite last_last in Hlast. rewrite rev_app_distr. exact Hlast.
  - rewrite forallb_forall in *. intros x Hx. apply Hpost. now apply in_rev.
Qed.

Lemma trim_blank (s : js_string) :
  forallb isWhiteSpace s = true -> trim s = [].
Proof.
  intros H. unfold trim, trimEnd.
  rewrite <- (app_nil_r s), trimStart_whitespace by assumption. reflexivity.
Qed.

Lemma whitespace_has_no_comma (s : js_string) :
  forallb isWhiteSpace s = true -> includes comma s = false.
Proof.
  unfold includes. induction s as [| c s IH]; [reflexivity |].
  cbn [existsb forallb]. intros H. apply andb_true_iff in H. destruct H as [Hc Hs].
  rewrite (IH Hs), orb_false_r. destruct (N.eqb comma c) eqn:E; [| reflexivity].
  apply N.eqb_eq in E. subst c. vm_compute in Hc. discriminate.
Qed.

Lemma includes_app (c : code_unit) (a b : js_string) :
  includes c (a ++ b) = includes c a || includes c b.
Proof. unfold includes. apply existsb_app. Qed.

(** X13.  The limiter counts a request under the first comma-separated
    entry of its [X-Forwarded-For] header, whitespace around it removed,
    whatever follows the first comma and whatever [req.ip] is: a header
    that starts with a non-blank entry [v] chooses the key [v].  Only when
    that first entry is blank is the request counted under [req.ip]. *)
Theorem keyGenerator_first_entry (pre v post rest : js_string) (ip : option js_string) :
  forallb isWhiteSpace pre = true ->
  forallb isWhiteSpace post = true ->
  v <> [] ->
  isWhiteSpace (hd 0%N v) = false ->
  isWhiteSpace (last v 0%N) = false ->
  includes comma v = false ->
  keyGenerator (Some (pre ++ v ++ post)) ip = Some v
  /\ keyGenerator (Some ((pre ++ v ++ post) ++ comma :: rest)) ip = Some v
  /\ keyGenerator (Some (pre ++ post)) ip = ip
  /\ keyGenerator (Some ((pre ++ post) ++ comma :: rest)) ip = ip.
Proof.
  intros Hpre Hpost Hv Hhd Hlast Hcomma.
  assert (Hc1 : includes comma (pre ++ v ++ post) = false).
  { rewrite !includes_app, Hcomma, !whitespace_has_no_comma by assumption. reflexivity. }
  assert (Hc2 : includes comma (pre ++ post) = false).
  { rewrite includes_app, !whitespace_has_no_comma by assumption. reflexivity. }
  assert (Hblank : trim (pre ++ post) = []).
  { apply trim_blank. rewrite forallb_app, Hpre, Hpost. reflexivity. }
  unfold keyGenerator.
  rewrite !first_entry by assumption.
  rewrite (split_without_separator _ _ Hc1), (split_without_separator _ _ Hc2).
  cbn [nth]. rewrite trim_padded by assumption. rewrite Hblank.
  destruct v; [contradiction |]. repeat split; reflexivity.
Qed.

Lemma keyGenerator_first_entry_witness :
  keyGenerator (Some (lit " 203.0.113.9 ")) (Some (lit "10.0.0.1"))
    = Some (lit "203.0.113.9")
  /\ keyGenerator (Some (lit " 203.0.113.9 " ++ comma :: lit " 10.1.1.1"))
                  (Some (lit "10.0.0.1"))
     = Some (lit "203.0.113.9")
  /\ keyGenerator (Some (lit "  ")) (Some (lit "10.0.0.1")) = Some (lit "10.0.0.1")
  /\ keyGenerator (Some (lit "  " ++ comma :: lit " 10.1.1.1")) (Some (lit "10.0.0.1"))
     = Some (lit "10.0.0.1").
Proof.
  apply (keyGenerator_first_entry (lit " ") (lit "203.0.113.9") (lit " ")
           (lit " 10.1.1.1") (Some (lit "10.0.0.1")));
    solve [vm_compute; reflexivity | discriminate].
Defined.

End RateLimitExtras.

(** ** The upload and URL options *)

Module OptionsExtras.

Import Cleanup CleanupFacts CleanupSpec UploadOptions.

Lemma get_app (key : string) (base o : Object) :
  get key (base ++ o) = match get key o with
                        | Some v => Some v
                        | None => get key base
                        end.
Proof.
  induction base as [| [k v] base IH]; simpl.
  - now destruct (get key o).
  - rewrite IH. destruct (get key o); reflexivity.
Qed.

(** X14.  The server's upload helper spreads the caller's options last, so
    every option the caller gives reaches the store unchanged, [tags] and
    [folder] included.  An upload is tagged [temp_upload] and
    [uploaded_<timestamp>] and goes to the folder [temp_uploads] only as
    far as the caller gives no [tags] and no [folder]; its resource type
    is the caller's [resourceType], and [auto] without one. *)
Theorem uploadOptions_caller_wins (timestamp : Z) (options : Object) :
  (forall (key : string) (v : Value),
      get key options = Some v -> get key (uploadOptions timestamp options) = Some v)
  /\ (get "tags" options = None ->
      tagsSent (uploadOptions timestamp options)
      = ["temp_upload"; "uploaded_" ++ Validation.showZ timestamp]%string)
  /\ (get "folder" options = None ->
      get "folder" (uploadOptions timestamp options) = Some (Str "temp_uploads"))
  /\ (get "resource_type" options = None ->
      (get "resourceType" options = None ->
       get "resource_type" (uploadOptions timestamp options) = Some (Str "auto"))
      /\ (forall kind : string,
             get "resourceType" options = Some (Str kind) -> kind <> ""%string ->
             get "resource_type" (uploadOptions timestamp options) = Some (Str kind))).
Proof.
  unfold uploadOptions, tagsSent. split; [| split; [| split]].
  - intros key v H. now rewrite get_app, H.
  - intros H. rewrite get_app, H. reflexivity.
  - intros H. rewrite get_app, H. reflexivity.
  - intros H. rewrite get_app, H. cbn [get String.eqb Ascii.eqb Bool.eqb]. split.
    + intros ->. reflexivity.
    + intros kind -> Hk. unfold orElse, truthy.
      destruct (String.eqb kind "") eqn:E; [| reflexivity].
      apply String.eqb_eq in E. contradiction.
Qed.

Lemma uploadOptions_caller_wins_witness :
  get "tags" (uploadOptions 1700000000000 [("tags"%string, Strs ["keep"%string])])
  = Some (Strs ["keep"%string]).
Proof.
  apply (proj1 (uploadOptions_caller_wins 1700000000000
                  [("tags"%string, Strs ["keep"%string])])).
  reflexivity.
Defined.

(** X15.  The serverless upload helper sends no tags of its own, so an
    upload whose caller gives none carries none; and a stored object with
    those tags, the only one of its kind with its public id, is still
    stored after a sweep, whatever its age, the time to live and the
    provider's answers. *)
Theorem serverless_uploads_outlive_sweeps (options : Object) (ttl : Z) (w : World)
  (kind : ResourceType) (r : Resource) :
  get "tags" options = None ->
  In r (stored w kind) ->
  tags r = tagsSent (serverlessUploadOptions options) ->
  (forall x, In x (stored w kind) -> public_id x = public_id r -> x = r) ->
  tagsSent (serverlessUploadOptions options) = []
  /\ In r (stored (snd (run (cleanupExpiredFiles ttl) w)) kind).
Proof.
  intros Hopt Hin Htags Hunique.
  assert (Hnone : tagsSent (serverlessUploadOptions options) = []).
  { unfold tagsSent, serverlessUploadOptions. rewrite get_app, Hopt. reflexivity. }
  split; [exact Hnone |].
  destruct (SweeperExtras.sweep_any ttl w)
    as (Ei & Er & w' & elapsed & Hrun & _ & Hsi & Hsr & Hdi & Hdr & _).
  rewrite Hrun. cbn [snd].
  assert (Hno : forall x, deletable ttl w kind x -> public_id x <> public_id r).
  { intros x (Hx & Htag & _) Heq. rewrite (Hunique x Hx Heq) in Htag.
    unfold has_tag in Htag. rewrite Htags, Hnone in Htag. discriminate. }
  destruct kind.
  - rewrite Hsi. now apply (SweeperExtras.deletable_not_kept ttl w image).
  - rewrite Hsr. now apply (SweeperExtras.deletable_not_kept ttl w raw).
Qed.

Lemma serverless_uploads_outlive_sweeps_witness :
  tagsSent (serverlessUploadOptions [("resourceType"%string, Str "raw")]) = []
  /\ In UploadExample.untagged
        (stored (snd (run (cleanupExpiredFiles 1) UploadExample.serverlessStore)) raw).
Proof.
  apply (serverless_uploads_outlive_sweeps [("resourceType"%string, Str "raw")] 1
           UploadExample.serverlessStore raw UploadExample.untagged).
  - reflexivity.
  - left. reflexivity.
  - reflexivity.
  - intros x [Hx | []] _. now symmetry.
Defined.

(** X16.  A signed URL made at time [now] (in milliseconds) with no
    [expires_at] of the caller's expires at a whole second that lies more
    than 3599 s and at most 3600 s after [now], and is signed; the
    caller's options are spread last, so each of them replaces the
    helper's, the expiry and [sign_url] included. *)
Theorem signedUrl_expiry (now : Z) (options : Object) :
  (get "expires_at" options = None ->
   exists expiresAt,
     get "expires_at" (signedUrlOptions now options) = Some (Num expiresAt)
     /\ now + 3599000 < expiresAt * 1000 <= now + 3600000)
  /\ (get "sign_url" options = None ->
      get "sign_url" (signedUrlOptions now options) = Some (Bool true))
  /\ (forall (key : string) (v : Value),
         get key options = Some v -> get key (signedUrlOptions now options) = Some v).
Proof.
  unfold signedUrlOptions. split; [| split].
  - intros H. exists (now / 1000 + 3600). rewrite get_app, H. split; [reflexivity |].
    pose proof (Z.mod_pos_bound now 1000 ltac:(lia)) as Hm.
    pose proof (Z.div_mod now 1000 ltac:(lia)) as Hd. lia.
  - intros H. rewrite get_app, H. reflexivity.
  - intros key v H. now rewrite get_app, H.
Qed.

Lemma signedUrl_expiry_witness :
  exists expiresAt,
    get "expires_at" (signedUrlOptions 1700000000999 []) = Some (Num expiresAt)
    /\ 1700000000999 + 3599000 < expiresAt * 1000 <= 1700000000999 + 3600000.
Proof.
  apply (proj1 (signedUrl_expiry 1700000000999 [])). reflexivity.
Defined.

End OptionsExtras.

(** ** The compress and merge handlers *)

Section RoutesExtras.

Variable Page : Type.
Variable Buffer : Type.
Variable load : Buffer -> option (PDFDocument Page).
Variable save : PDFDocument Page -> Buffer.
Variable Upload : Type.
Variable uploadToCloudinary : Buffer -> option Upload.
Variable byteLength : Buffer -> Z.

(** X17.  The compress handler answers with success only for a file of at
    most 5 MiB (5242880 bytes) that parses, has at most 10 pages and is
    stored; the size is checked first, so a larger file is answered with
    status 400 whether or not it is a PDF at all; and both limits are
    inclusive: every stored PDF within them is accepted. *)
Theorem compressHandler_limits (file : option (UploadedFile Buffer)) :
  (forall (originalSize pageCount : Z) (uploadResult : Upload),
      compressHandler load uploadToCloudinary file
      = CompressOk originalSize pageCount uploadResult ->
      exists f pdf,
        file = Some f /\ load (file_buffer f) = Some pdf
        /\ originalSize = size f /\ originalSize <= 5242880
        /\ pageCount = getPageCount pdf /\ pageCount <= 10
        /\ uploadToCloudinary (file_buffer f) = Some uploadResult)
  /\ (forall f, file = Some f -> 5242880 < size f ->
                compressHandler load uploadToCloudinary file
                = Compress400 "PDF too large for Cloudinary compression")
  /\ (forall f pdf uploadResult,
         file = Some f -> size f <= 5242880 ->
         load (file_buffer f) = Some pdf -> getPageCount pdf <= 10 ->
         uploadToCloudinary (file_buffer f) = Some uploadResult ->
         compressHandler load uploadToCloudinary file
         = CompressOk (size f) (getPageCount pdf) uploadResult).
Proof.
  unfold compressHandler, compressHandlerBody, getPdfInfo, PDFDocument_load, upload,
    MAX_PDF_SIZE_FOR_COMPRESSION, MAX_PDF_PAGES_FOR_COMPRESSION.
  change (5 * 1024 * 1024) with 5242880.
  split; [| split].
  - intros os pc u H. destruct file as [f |]; [| discriminate].
    destruct (5242880 <? size f) eqn:Es; [discriminate |].
    apply Z.ltb_ge in Es.
    destruct (load (file_buffer f)) as [pdf |] eqn:El; cbn [bind] in H; [| discriminate].
    destruct (10 <? getPageCount pdf) eqn:Ep; [discriminate |].
    apply Z.ltb_ge in Ep.
    destruct (uploadToCloudinary (file_buffer f)) as [u' |] eqn:Eu; cbn [bind] in H;
      [| discriminate].
    injection H as <- <- <-. exists f, pdf. repeat split; assumption.
  - intros f -> Hs. apply Z.ltb_lt in Hs. rewrite Hs. reflexivity.
  - intros f pdf u -> Hs Hl Hp Hu.
    apply Z.ltb_ge in Hs. rewrite Hs, Hl. cbn [bind].
    apply Z.ltb_ge in Hp. rewrite Hp, Hu. reflexivity.
Qed.

Lemma loaded_or_malformed (pdfBuffers : list Buffer) :
  (exists docs, Forall2 (fun b d => load b = Some d) pdfBuffers docs)
  \/ Exists (fun b => load b = None) pdfBuffers.
Proof.
  induction pdfBuffers as [| b bs IH].
  - left. exists []. constructor.
  - destruct (load b) as [d |] eqn:E.
    + destruct IH as [(docs & H) | H].
      * left. exists (d :: docs). now constructor.
      * right. now apply Exists_cons_tl.
    + right. now apply Exists_cons_hd.
Qed.

Lemma mergedDocument_cases (pdfBuffers : list Buffer) :
  (exists docs, Forall2 (fun b d => load b = Some d) pdfBuffers docs
                /\ mergedDocument load pdfBuffers
                   = Normal (mkDocument (concat (map docPages docs))))
  \/ mergedDocument load pdfBuffers = Throw MalformedDocument.
Proof.
  unfold mergedDocument. destruct (loaded_or_malformed pdfBuffers) as [(docs & H) | H].
  - left. exists docs. split; [assumption |].
    now rewrite (mergeLoop_loaded Page Buffer load _ docs).
  - right. now apply mergeLoop_malformed.
Qed.

(** X18.  The server's merge handler answers 400 unless at least two files
    are uploaded, and answers with success only when there are at least
    two, each of them parses, the saved merged document parses again and is
    stored; the page count it reports is that of the re-read document, the
    file count the number of uploads, the size that of the merged bytes. *)
Theorem mergeHandler_success (files : option (list Buffer)) :
  ((files = None \/ exists fs, files = Some fs /\ (length fs < 2)%nat) ->
   mergeHandler load save uploadToCloudinary byteLength files
   = Merge400 "At least 2 PDF files are required for merging")
  /\ (forall (pageCount filesCount : Z) (uploadResult : Upload) (mergedSize : Z),
         mergeHandler load save uploadToCloudinary byteLength files
         = MergeOk pageCount filesCount uploadResult mergedSize ->
         exists fs docs reread,
           files = Some fs /\ (2 <= length fs)%nat
           /\ filesCount = Z.of_nat (length fs)
           /\ Forall2 (fun b d => load b = Some d) fs docs
           /\ load (save (mkDocument (concat (map docPages docs)))) = Some reread
           /\ pageCount = getPageCount reread
           /\ uploadToCloudinary (save (mkDocument (concat (map docPages docs))))
              = Some uploadResult
           /\ mergedSize = byteLength (save (mkDocument (concat (map docPages docs))))).
Proof.
  unfold mergeHandler, mergeHandlerBody. split.
  - intros [-> | (fs & -> & Hlen)]; [reflexivity |].
    apply Nat.ltb_lt in Hlen. rewrite Hlen. reflexivity.
  - intros pc fc u sz H. destruct files as [fs |]; [| discriminate].
    destruct (length fs <? 2)%nat eqn:El; [discriminate |]. apply Nat.ltb_ge in El.
    unfold mergePdfs in H.
    destruct (mergedDocument_cases fs) as [(docs & Hdocs & Hm) | Hm];
      rewrite Hm in H; cbn [bind] in H; [| discriminate].
    unfold getPdfInfo, PDFDocument_load, upload in H.
    destruct (load (save (mkDocument (concat (map docPages docs))))) as [reread |] eqn:Er;
      cbn [bind] in H; [| discriminate].
    destruct (uploadToCloudinary (save (mkDocument (concat (map docPages docs)))))
      as [u' |] eqn:Eu; cbn [bind] in H; [| discriminate].
    injection H as <- <- <- <-. exists fs, docs, reread. repeat split; assumption.
Qed.

End RoutesExtras.

Lemma compressHandler_limits_witness :
  compressHandler Demo.load Demo.uploadToCloudinary
    (Some (mkUploadedFile Demo.fivePages 5242880))
  = CompressOk 5242880 5 Demo.fivePages.
Proof.
  apply (proj2 (proj2 (compressHandler_limits Demo.Page Demo.Buffer Demo.load Demo.Buffer
                         Demo.uploadToCloudinary
                         (Some (mkUploadedFile Demo.fivePages 5242880))))
               (mkUploadedFile Demo.fivePages 5242880)
               (mkDocument [1; 2; 3; 4; 5]%nat) Demo.fivePages).
  - reflexivity.
  - cbn [size]. lia.
  - reflexivity.
  - vm_compute. discriminate.
  - reflexivity.
Defined.

Lemma mergeHandler_success_witness :
  mergeHandler Demo.load Demo.save Demo.uploadToCloudinary Demo.byteLength
    (Some [Demo.fivePages])
  = Merge400 "At least 2 PDF files are required for merging".
Proof.
  apply (proj1 (mergeHandler_success Demo.Page Demo.Buffer Demo.load Demo.save Demo.Buffer
                  Demo.uploadToCloudinary Demo.byteLength (Some [Demo.fivePages]))).
  right. exists [Demo.fivePages]. split; [reflexivity | cbn [length]; lia].
Defined.

(** ** The serverless merge handler *)

Section ServerlessExtras.

Variable Page : Type.
Variable Buffer : Type.
Variable load : Buffer -> option (PDFDocument Page).
Variable save : PDFDocument Page -> Buffer.
Variable ServerlessUpload : Type.
Variable uploadToCloudinary : Buffer -> option ServerlessUpload.
Variable byteLength : Buffer -> Z.

(** X19.  The serverless merge handler asks for no minimum number of
    files: whenever [req.files] is defined, every file parses and the
    upload of the merged bytes succeeds, it answers with success, for one
    file and for none as well; it answers with success in no other case,
    and every failure is a status 500.  The file count it reports is the
    number of uploads; the page count is the sum of the inputs' page
    counts, except that it is 1 when they have no page at all. *)
Theorem serverlessMerge_any_number_of_files (files : option (list Buffer)) :
  (forall (fs : list Buffer) (docs : list (PDFDocument Page))
          (uploadResult : ServerlessUpload),
      files = Some fs ->
      Forall2 (fun b d => load b = Some d) fs docs ->
      uploadToCloudinary (save (mkDocument (concat (map docPages docs))))
      = Some uploadResult ->
      serverlessMergeHandler load save uploadToCloudinary byteLength files
      = ServerlessMergeOk uploadResult
          (Z.max 1 (fold_right Z.add 0 (map getPageCount docs)))
          (Z.of_nat (length fs))
          (byteLength (save (mkDocument (concat (map docPages docs))))))
  /\ (forall (uploadResult : ServerlessUpload) (pageCount filesCount mergedSize : Z),
         serverlessMergeHandler load save uploadToCloudinary byteLength files
         = ServerlessMergeOk uploadResult pageCount filesCount mergedSize ->
         exists fs docs,
           files = Some fs
           /\ Forall2 (fun b d => load b = Some d) fs docs
           /\ uploadToCloudinary (save (mkDocument (concat (map docPages docs))))
              = Some uploadResult
           /\ 1 <= pageCount)
  /\ (forall error : string,
         serverlessMergeHandler load save uploadToCloudinary byteLength files
         = ServerlessMerge500 error -> error = "Failed to merge PDFs"%string).
Proof.
  assert (Hcount : forall docs : list (PDFDocument Page),
             pageCountAfterSave (mkDocument (concat (map docPages docs)))
             = Z.max 1 (fold_right Z.add 0 (map getPageCount docs))).
  { intros docs. unfold pageCountAfterSave.
    rewrite <- (getPageCount_concat Page docs). unfold getPageCount. cbn [docPages].
    destruct (concat (map docPages docs)) as [| p ps]; cbn [length Nat.eqb]; lia. }
  unfold serverlessMergeHandler, serverlessMergeBody. split; [| split].
  - intros fs docs u -> Hdocs Hu.
    unfold mergedDocument. rewrite (mergeLoop_loaded Page Buffer load _ docs _ Hdocs).
    unfold PDFDocument_create. cbn [bind docPages app]. unfold upload. rewrite Hu.
    cbn [bind]. now rewrite Hcount.
  - intros u pc fc sz H. destruct files as [fs |]; [| discriminate].
    destruct (mergedDocument_cases Page Buffer load fs) as [(docs & Hdocs & Hm) | Hm];
      rewrite Hm in H; cbn [bind] in H; [| discriminate].
    unfold upload in H.
    destruct (uploadToCloudinary (save (mkDocument (concat (map docPages docs)))))
      as [u' |] eqn:Eu; cbn [bind] in H; [| discriminate].
    injection H as <- <- <- <-. exists fs, docs.
    repeat split; try assumption. rewrite Hcount. lia.
  - intros error H. destruct files as [fs |]; [| now injection H as <-].
    destruct (mergedDocument load fs) as [merged | e]; cbn [bind] in H;
      [| now injection H as <-].
    unfold upload in H. destruct (uploadToCloudinary (save merged)); cbn [bind] in H;
      [discriminate | now injection H as <-].
Qed.

End ServerlessExtras.

Lemma serverlessMerge_any_number_of_files_witness :
  serverlessMergeHandler PdfLib.load PdfLib.save Demo.uploadToCloudinary Demo.byteLength
    (Some [Some [1; 2; 3]%nat])
  = ServerlessMergeOk (Some [1; 2; 3]%nat) (Z.max 1 (3 + 0)) 1 3.
Proof.
  apply (proj1 (serverlessMerge_any_number_of_files PdfLib.Page PdfLib.Buffer PdfLib.load
                  PdfLib.save Demo.Buffer Demo.uploadToCloudinary Demo.byteLength
                  (Some [Some [1; 2; 3]%nat]))
               [Some [1; 2; 3]%nat] [mkDocument [1; 2; 3]%nat] (Some [1; 2; 3]%nat)).
  - reflexivity.
  - repeat constructor.
  - reflexivity.
Defined.
